(** * code-sync: the extension reconciler and the [install-extensions] flow

    A shallow embedding of the helpers [diff],
    [transformExtensionsStringToArray], [readInstalledExtensions],
    [installExtension], [uninstallExtension] and of the command
    [installExtensions] of the script, together with the properties the
    specification states about them.

    JavaScript arrays of strings are lists of [string]; [Array.prototype.includes]
    on strings is string equality; the promise chain of [installExtensions]
    is a state machine whose observable effects (console output, child
    processes, the prompt, [process.exit]) are recorded in a trace. *)

From Stdlib Require Import Ascii String ZArith.
From stdpp Require Import base strings list gmap sets.

Open Scope string_scope.
Open Scope list_scope.

(** ** Helpers *)

Module Helpers.

(** [base.includes(value)]: a left-to-right scan comparing with
    SameValueZero, which on strings is equality of contents. *)
Fixpoint includes (arr : list string) (searchElement : string) : bool :=
  match arr with
  | [] => false
  | x :: rest => if String.eqb x searchElement then true else includes rest searchElement
  end.

(** [const diff = (base, values) => values.reduce((acc, value) => { if
    (base.includes(value)) return acc; acc.push(value); return acc; }, [])]. *)
Definition diff (base values : list string) : list string :=
  foldl (fun acc value => if includes base value then acc else acc ++ [value])
        [] values.

(** The pair assigned to [extensionsToInstall] and [extensionsToUninstall]:
    [diff(installedExtensions, savedExtensions)] and
    [diff(savedExtensions, installedExtensions)]. *)
Definition plan (installedExtensions savedExtensions : list string)
  : list string * list string :=
  (diff installedExtensions savedExtensions,
   diff savedExtensions installedExtensions).

(** *** The same reduction with the accumulator as a mutable array

    [reduce] is started on a fresh array literal and [acc.push] updates that
    array in place. Arrays live in a store addressed by reference; the call
    allocates one cell and returns its reference. *)
Abbreviation store := (list (list string)).

Definition alloc (h : store) : nat * store := (length h, h ++ [[]]).

Definition push (r : nat) (value : string) (h : store) : store :=
  alter (fun arr => arr ++ [value]) r h.

Definition diff_store (base values : list string) (h : store) : nat * store :=
  let '(acc, h0) := alloc h in
  (acc, foldl (fun h' value => if includes base value then h' else push acc value h')
              h0 values).

(** The array a reference denotes; a dangling reference reads as empty. *)
Definition deref (r : nat) (h : store) : list string := default [] (h !! r).

(** The elements of the array a call of [diff] returns when run in store [h]. *)
Definition diff_result (base values : list string) (h : store) : list string :=
  let '(r, h') := diff_store base values h in deref r h'.

(** Two successive calls, as in [installExtensions]: the second runs in the
    store the first one left. *)
Definition plan_store (installedExtensions savedExtensions : list string) (h : store)
  : list string * list string :=
  let '(r1, h1) := diff_store installedExtensions savedExtensions h in
  let '(r2, h2) := diff_store savedExtensions installedExtensions h1 in
  (deref r1 h2, deref r2 h2).

(** [extensionsString.split('\n')]: the pieces between line feeds; the empty
    string splits into one empty piece. *)
Fixpoint split_lines (s : string) : list string :=
  match s with
  | EmptyString => [EmptyString]
  | String c rest =>
      if Ascii.eqb c "010"%char then EmptyString :: split_lines rest
      else match split_lines rest with
           | [] => [String c EmptyString]
           | piece :: pieces => String c piece :: pieces
           end
  end.

(** [Boolean(s)] on a string: false exactly for the empty string. *)
Definition truthy (s : string) : bool :=
  match s with EmptyString => false | _ => true end.

(** [extensionsString.split('\n').filter(Boolean)]. *)
Definition transformExtensionsStringToArray (extensionsString : string) : list string :=
  List.filter truthy (split_lines extensionsString).

End Helpers.

Import Helpers.

(** ** The [install-extensions] command *)

Module Flow.

Inductive operation := Install | Uninstall.

(** What [console.log] is called with. *)
Inductive message :=
| MsgInstallingExtensions            (* 'Installing extensions...' *)
| MsgRule                            (* '---' *)
| MsgUnableToGet (stderr : string)   (* `Unable to get extensions. stderr: ${stderr}` *)
| MsgFileEmpty                       (* '`extensions` file is empty' *)
| MsgNothing                         (* 'Nothing to install and uninstall' *)
| MsgInstalling (extension : string) (* `Installing ${extension}` *)
| MsgUninstalling (extension : string) (* `Uninstalling ${extension}` *)
| MsgSuccess.                        (* 'Success! Restart vs-code to apply extensions.' *)

(** What [console.error] is called with: the reason a promise of the chain
    was rejected. *)
Inductive error :=
| ErrListCommand                     (* exec('code --list-extensions') rejected *)
| ErrTypeError                       (* [undefined.split]: the list command gave no string *)
| ErrNoEntry                         (* readFileSync('./extensions') threw: no such file *)
| ErrCommand (op : operation) (extension : string). (* exec of an install or uninstall rejected *)

(** Observable effects, in the order they happen. *)
Inductive event :=
| ConsoleLog (m : message)
| ConsoleError (e : error)
| CreateInterface                                   (* readline.createInterface *)
| ExecList                                          (* exec('code --list-extensions') *)
| ReadExtensionsFile                                (* readFileSync('./extensions') *)
| Question (toInstall toUninstall : list string)    (* rl.question with both lists *)
| RlClose                                           (* rl.close() *)
| Exec (op : operation) (extension : string)        (* exec(`code --install-extension ..`) *)
| Settled (op : operation) (extension : string) (ok : bool) (* that command ended *)
| ProcessExit (code : Z).                           (* process.exit(code) *)

Global Instance operation_eq_dec : EqDecision operation.
Proof. solve_decision. Defined.

Global Instance message_eq_dec : EqDecision message.
Proof. solve_decision. Defined.

Global Instance error_eq_dec : EqDecision error.
Proof. solve_decision. Defined.

Global Instance event_eq_dec : EqDecision event.
Proof. solve_decision. Defined.

(** How the promisified [exec] of the list command settles. *)
Inductive exec_outcome :=
| Resolved (stdout stderr : string)
| Rejected.

(** What the run receives from outside before any extension is touched. *)
Record Env := mkEnv {
  listExtensions : exec_outcome;    (* outcome of [code --list-extensions] *)
  extensionsFile : option string;   (* content of [./extensions]; [None]: no such file *)
  answer : string                   (* the line typed at the prompt *)
}.

(** Where the promise chain stands. *)
Inductive phase :=
| Started                 (* before the first [.then] callback has finished *)
| AwaitingAnswer          (* [rl.question] issued *)
| Installing              (* waiting on [Promise.all] of the installs *)
| Uninstalling            (* waiting on [Promise.all] of the uninstalls *)
| Exited (code : Z)       (* [process.exit(code)] was called *)
| Failed (e : error)      (* the chain was rejected and [.catch(console.error)] ran *)
| Completed.              (* the last [.then] callback ran *)

Record state := mkState {
  extensionsToInstall : list string;
  extensionsToUninstall : list string;
  running : list (operation * string);   (* commands started and not yet ended *)
  status : phase;
  trace : list event
}.

Definition emit (evs : list event) (st : state) : state :=
  mkState (extensionsToInstall st) (extensionsToUninstall st) (running st)
          (status st) (trace st ++ evs).

Definition set_status (s : phase) (st : state) : state :=
  mkState (extensionsToInstall st) (extensionsToUninstall st) (running st)
          s (trace st).

Definition assign (toInstall toUninstall : list string) (st : state) : state :=
  mkState toInstall toUninstall (running st) (status st) (trace st).

(** [process.exit(code)]: nothing of the chain runs afterwards. *)
Definition exit (code : Z) (st : state) : state :=
  set_status (Exited code) (emit [ProcessExit code] st).

(** A rejection skips the remaining [.then] callbacks and reaches the final
    [.catch(console.error)]. *)
Definition catch (e : error) (st : state) : state :=
  set_status (Failed e) (emit [ConsoleError e] st).

(** [readInstalledExtensions]: the value the returned promise resolves to
    ([None] is [undefined], what [.catch(console.error)] resolves to), or the
    exit it performs. *)
Inductive list_result :=
| ListValue (installedExtensionsStr : option string)
| ListExit (code : Z).

Definition readInstalledExtensions (env : Env) : list event * list_result :=
  match listExtensions env with
  | Resolved stdout stderr =>
      if truthy stderr
      then ([ExecList; ConsoleLog (MsgUnableToGet stderr); ProcessExit 1], ListExit 1)
      else ([ExecList], ListValue (Some stdout))
  | Rejected => ([ExecList; ConsoleError ErrListCommand], ListValue None)
  end.

(** [installExtension] and [uninstallExtension]: announce, then start the
    command. *)
Definition announce (op : operation) (extension : string) : message :=
  match op with
  | Install => MsgInstalling extension
  | Uninstall => MsgUninstalling extension
  end.

Definition runExtensionCommand (op : operation) (extension : string) : list event :=
  [ConsoleLog (announce op extension); Exec op extension].

Definition installExtension := runExtensionCommand Install.
Definition uninstallExtension := runExtensionCommand Uninstall.

(** [extensions.map(installExtension)]: every command of the list is
    started, in order, before any of them can end. *)
Definition spawn (op : operation) (extensions : list string) (st : state) : state :=
  mkState (extensionsToInstall st) (extensionsToUninstall st)
          (running st ++ map (pair op) extensions)
          (status st)
          (trace st ++ concat (map (runExtensionCommand op) extensions)).

(** The commands of one kind that are still running. *)
Definition is_op (op : operation) (c : operation * string) : bool :=
  match op, fst c with
  | Install, Install | Uninstall, Uninstall => true
  | _, _ => false
  end.

Definition pending (op : operation) (st : state) : list (operation * string) :=
  List.filter (is_op op) (running st).

(** The last callback: [console.log('Success! ...')]. *)
Definition complete (st : state) : state :=
  set_status Completed (emit [ConsoleLog MsgSuccess] st).

(** [.then(() => Promise.all(extensionsToUninstall.map(uninstallExtension)))];
    [Promise.all] of an empty array is fulfilled at once. *)
Definition startUninstalling (st : state) : state :=
  let st' := spawn Uninstall (extensionsToUninstall st) st in
  match extensionsToUninstall st with
  | [] => complete st'
  | _ :: _ => set_status Uninstalling st'
  end.

(** [return Promise.all(extensionsToInstall.map(installExtension))]. *)
Definition startInstalling (st : state) : state :=
  let st' := spawn Install (extensionsToInstall st) st in
  match extensionsToInstall st with
  | [] => startUninstalling st'
  | _ :: _ => set_status Installing st'
  end.

(** The first [.then] callback, up to the prompt. *)
Definition computePlan (env : Env) (installedExtensionsStr : option string)
    (st : state) : state :=
  match installedExtensionsStr with
  | None => catch ErrTypeError st
  | Some str =>
      let installedExtensions := transformExtensionsStringToArray str in
      let st := emit [ReadExtensionsFile] st in
      match extensionsFile env with
      | None => catch ErrNoEntry st
      | Some content =>
          let savedExtensions := transformExtensionsStringToArray content in
          if (length savedExtensions =? 0)%nat
          then exit 1 (emit [ConsoleLog MsgFileEmpty] st)
          else
            let st := assign (diff installedExtensions savedExtensions)
                             (diff savedExtensions installedExtensions) st in
            if (length (extensionsToUninstall st) =? 0)%nat
               && (length (extensionsToInstall st) =? 0)%nat
            then exit 0 (emit [ConsoleLog MsgNothing] st)
            else set_status AwaitingAnswer
                   (emit [Question (extensionsToInstall st) (extensionsToUninstall st)] st)
      end
  end.

(** The second [.then] callback: [rl.close(); if (answer !== 'y')
    process.exit(0); return Promise.all(...)]. *)
Definition onAnswer (answer : string) (st : state) : state :=
  let st := emit [RlClose] st in
  if negb (String.eqb answer "y") then exit 0 st
  else startInstalling st.

Definition initial : state :=
  mkState [] [] [] Started
          [ConsoleLog MsgInstallingExtensions; ConsoleLog MsgRule; CreateInterface].

(** The chain from the start of [installExtensions] until it first waits on
    install or uninstall commands, or ends. *)
Definition launch (env : Env) : state :=
  match readInstalledExtensions env with
  | (evs, ListExit code) => set_status (Exited code) (emit evs initial)
  | (evs, ListValue v) =>
      let st := computePlan env v (emit evs initial) in
      match status st with
      | AwaitingAnswer => onAnswer (answer env) st
      | _ => st
      end
  end.

(** One command ends: the [k]-th of those running, successfully ([ok]) or
    not. [Promise.all] is rejected by the first failure and fulfilled when
    the last command of its array succeeds. *)
Inductive settlement := Settle (k : nat) (ok : bool).

Definition settle (st : state) (s : settlement) : state :=
  let '(Settle k ok) := s in
  match running st !! k with
  | None => st
  | Some (op, extension) =>
      let st' := mkState (extensionsToInstall st) (extensionsToUninstall st)
                         (delete k (running st)) (status st)
                         (trace st ++ [Settled op extension ok]) in
      match status st, op with
      | Installing, Install =>
          if ok then
            match pending Install st' with
            | [] => startUninstalling st'
            | _ :: _ => st'
            end
          else catch (ErrCommand Install extension) st'
      | Uninstalling, Uninstall =>
          if ok then
            match pending Uninstall st' with
            | [] => complete st'
            | _ :: _ => st'
            end
          else catch (ErrCommand Uninstall extension) st'
      | _, _ => st'
      end
  end.

(** A run of [installExtensions]: the environment [env] and the order and
    outcome [sched] in which the started commands end. *)
Definition installExtensions (env : Env) (sched : list settlement) : state :=
  foldl settle (launch env) sched.

End Flow.

Import Flow.

(** ** The earlier revision of the command (index.js)

    It differs from the one above in that the two reductions are written out
    in place instead of calling [diff]; the callbacks are otherwise the same. *)

Module IndexJs.

Definition computePlan (env : Env) (installedExtensionsStr : option string)
    (st : state) : state :=
  match installedExtensionsStr with
  | None => catch ErrTypeError st
  | Some str =>
      let installedExtensions := transformExtensionsStringToArray str in
      let st := emit [ReadExtensionsFile] st in
      match extensionsFile env with
      | None => catch ErrNoEntry st
      | Some content =>
          let savedExtensions := transformExtensionsStringToArray content in
          if (length savedExtensions =? 0)%nat
          then exit 1 (emit [ConsoleLog MsgFileEmpty] st)
          else
            let st :=
              assign
                (foldl (fun acc extensionName =>
                          if includes installedExtensions extensionName then acc
                          else acc ++ [extensionName]) [] savedExtensions)
                (foldl (fun acc extensionName =>
                          if includes savedExtensions extensionName then acc
                          else acc ++ [extensionName]) [] installedExtensions)
                st in
            if (length (extensionsToUninstall st) =? 0)%nat
               && (length (extensionsToInstall st) =? 0)%nat
            then exit 0 (emit [ConsoleLog MsgNothing] st)
            else set_status AwaitingAnswer
                   (emit [Question (extensionsToInstall st) (extensionsToUninstall st)] st)
      end
  end.

Definition onAnswer (answer : string) (st : state) : state :=
  let st := emit [RlClose] st in
  if negb (String.eqb answer "y") then exit 0 st
  else startInstalling st.

Definition launch (env : Env) : state :=
  match readInstalledExtensions env with
  | (evs, ListExit code) => set_status (Exited code) (emit evs initial)
  | (evs, ListValue v) =>
      let st := computePlan env v (emit evs initial) in
      match status st with
      | AwaitingAnswer => onAnswer (answer env) st
      | _ => st
      end
  end.

Definition installExtensions (env : Env) (sched : list settlement) : state :=
  foldl settle (launch env) sched.

End IndexJs.

(** ** Vocabulary for the statements *)

(** The set of identifiers a list denotes. *)
Definition ids (l : list string) : gset string := list_to_set l.

(** Number of occurrences of [v] in [l]. *)
Definition occurrences (v : string) (l : list string) : nat :=
  length (filter (λ x, x = v) l).

Definition op_eqb (a b : operation) : bool :=
  match a, b with
  | Install, Install | Uninstall, Uninstall => true
  | _, _ => false
  end.

(** The event starts a command of kind [op]. *)
Definition is_exec (op : operation) (ev : event) : bool :=
  match ev with Exec op' _ => op_eqb op op' | _ => false end.

(** The event is the end of a command of kind [op]. *)
Definition is_settled (op : operation) (ev : event) : bool :=
  match ev with Settled op' _ _ => op_eqb op op' | _ => false end.

(** The event is the failure of an install. *)
Definition is_failed_install (ev : event) : bool :=
  match ev with Settled Install _ false => true | _ => false end.

Definition is_success (ev : event) : bool :=
  match ev with ConsoleLog MsgSuccess => true | _ => false end.

(** How many commands of kind [op] the trace starts, and how many it ends. *)
Definition started (op : operation) (tr : list event) : nat :=
  length (List.filter (is_exec op) tr).

Definition settled (op : operation) (tr : list event) : nat :=
  length (List.filter (is_settled op) tr).

(** No event of the trace satisfies [p]. *)
Definition never (p : event → bool) (tr : list event) : Prop :=
  Forall (λ ev, p ev = false) tr.

(** Whenever the trace starts an uninstall, [n] installs have been started
    and [n] installs have ended before it. *)
Definition barrier (n : nat) (tr : list event) : Prop :=
  ∀ pre x post, tr = pre ++ Exec Uninstall x :: post →
    started Install pre = n ∧ settled Install pre = n.

(** The event belongs to the install and uninstall phases or is the final
    success message. *)
Definition is_chain_event (ev : event) : bool :=
  match ev with
  | Exec _ _ | Settled _ _ _ | ConsoleLog MsgSuccess => true
  | _ => false
  end.

(** What holds of a state of the chain, phase by phase. *)
Record chain_inv (st : state) : Prop := {
  inv_barrier : barrier (length (extensionsToInstall st)) (trace st);
  inv_phase :
    match status st with
    | Installing =>
        started Install (trace st) = length (extensionsToInstall st)
        ∧ settled Install (trace st) + length (running st)
          = length (extensionsToInstall st)
        ∧ Forall (λ c, is_op Install c = true) (running st)
        ∧ never (is_exec Uninstall) (trace st)
        ∧ never is_success (trace st)
        ∧ never is_failed_install (trace st)
    | Uninstalling =>
        Forall (λ c, is_op Uninstall c = true) (running st)
        ∧ never is_success (trace st)
        ∧ never is_failed_install (trace st)
    | Completed =>
        Forall (λ c, is_op Uninstall c = true) (running st)
        ∧ never is_failed_install (trace st)
    | Failed e =>
        ConsoleError e ∈ trace st
        ∧ never is_success (trace st)
        ∧ (never (is_exec Uninstall) (trace st)
           ∨ (Forall (λ c, is_op Uninstall c = true) (running st)
              ∧ never is_failed_install (trace st)))
    | Started | AwaitingAnswer | Exited _ =>
        running st = [] ∧ never is_chain_event (trace st)
    end
}.

(** The text of the two files used in the examples. *)
Definition LF : string := String "010" "".

Definition lines (l : list string) : string :=
  foldr (fun x acc => x +:+ LF +:+ acc) "" l.

(** Installed [a], [b]; saved [b], [c]; the operator answers [y]. *)
Definition env_mixed : Env :=
  mkEnv (Resolved (lines ["a"; "b"]) "") (Some (lines ["b"; "c"])) "y".

(** The same machine, without an [extensions] file. *)
Definition env_no_file : Env :=
  mkEnv (Resolved (lines ["a"; "b"]) "") None "y".

(** The same machine, with an [extensions] file of blank lines only. *)
Definition env_blank_file : Env :=
  mkEnv (Resolved (lines ["a"; "b"]) "") (Some (LF +:+ LF)) "y".

(** Nothing differs between the machine and the file. *)
(** Installed [a], [b]; saved [b], [c], [d]; the operator answers [y]. *)
Definition env_two_installs : Env :=
  mkEnv (Resolved (lines ["a"; "b"]) "") (Some (lines ["b"; "c"; "d"])) "y".

Definition env_in_sync : Env :=
  mkEnv (Resolved (lines ["a"; "b"]) "") (Some (lines ["a"; "b"])) "y".

(** The operator answers [answer] to the plan of [env_mixed]. *)
Definition env_answering (answer : string) : Env :=
  mkEnv (Resolved (lines ["a"; "b"]) "") (Some (lines ["b"; "c"])) answer.

(** ** The other commands of the script

    The settings and key-bindings commands copy one file; [saveExtensions]
    writes the output of the list command; [applyAll] and [saveAll] chain
    three commands; the last lines of the script pick the command to run. *)

Module Machine.

(** What the script finds around it. *)
Record Host := mkHost {
  platform : string;                  (* process.platform *)
  homedir : string;                   (* require('os').homedir() *)
  pathJoin : list string → string;    (* path.join of its arguments *)
  resolve : string → string;          (* the file a path names *)
  writable : string → bool;           (* that file can be created or overwritten *)
  listing : exec_outcome;             (* how [code --list-extensions] ends *)
  undefinedData : option string;      (* what writeFile stores for [undefined];
                                         [None]: it refuses such data *)
  inheritedKey : string → bool;       (* the name is a property of Object.prototype *)
  reply : string;                     (* the line typed at the prompt *)
  endings : list settlement           (* how the install and uninstall commands end *)
}.

(** Arguments of [console.log] in these commands. *)
Inductive note :=
| SavingSettings | SavingKeyBindings | ApplyingSettings | ApplyingKeyBindings
| SavingExtensions | Success | UnknownCommand.

(** Reasons of rejection passed to [console.error]. *)
Inductive fault :=
| CopyFailed (src dest : string)      (* copyFile rejected *)
| WriteFailed (path : string)         (* writeFile rejected *)
| InvalidData (path : string).        (* writeFile refused [undefined] *)

Inductive effect :=
| Say (n : note)
| Complain (f : fault)
| CopyFile (src dest : string)
| WriteFile (path : string) (data : option string)
| Core (ev : event).                  (* an effect of the extension helpers *)

(** The files, by the file a path resolves to, and what has happened. *)
Record world := mkWorld {
  files : gmap string string;
  output : list effect
}.

(** How a promise settles, or that the process has exited. *)
Inductive result (A : Type) :=
| Fulfilled (a : A)
| Rejected (f : fault)
| Halted (code : Z).

Arguments Fulfilled {A} a.
Arguments Rejected {A} f.
Arguments Halted {A} code.

Definition promise (A : Type) : Type := world → world * result A.

Definition emitW (effs : list effect) (w : world) : world :=
  mkWorld (files w) (output w ++ effs).

(** [p.then(k)]. *)
Definition andThen {A B : Type} (p : promise A) (k : A → promise B) : promise B :=
  fun w =>
    match p w with
    | (w', Fulfilled a) => k a w'
    | (w', Rejected f) => (w', Rejected f)
    | (w', Halted code) => (w', Halted code)
    end.

(** [p.catch(console.error)]: the rejection is logged and the promise is
    fulfilled with [undefined]. *)
Definition catchLog (p : promise unit) : promise unit :=
  fun w =>
    match p w with
    | (w', Rejected f) => (emitW [Complain f] w', Fulfilled tt)
    | settledOrHalted => settledOrHalted
    end.

(** [() => console.log(n)]. *)
Definition log (n : note) : promise unit :=
  fun w => (emitW [Say n] w, Fulfilled tt).

(** The promisified [fs.copyFile]: the content of the source replaces that
    of the destination; it is rejected when the source does not exist or the
    destination cannot be written. *)
Definition copyFile (h : Host) (src dest : string) : promise unit :=
  fun w =>
    let w := emitW [CopyFile src dest] w in
    match files w !! resolve h src with
    | Some content =>
        if writable h (resolve h dest)
        then (mkWorld (<[resolve h dest := content]> (files w)) (output w),
              Fulfilled tt)
        else (w, Rejected (CopyFailed src dest))
    | None => (w, Rejected (CopyFailed src dest))
    end.

(** The promisified [fs.writeFile]. *)
Definition writeFile (h : Host) (path : string) (data : option string) : promise unit :=
  fun w =>
    let w := emitW [WriteFile path data] w in
    match (match data with Some d => Some d | None => undefinedData h end) with
    | Some d =>
        if writable h (resolve h path)
        then (mkWorld (<[resolve h path := d]> (files w)) (output w), Fulfilled tt)
        else (w, Rejected (WriteFailed path))
    | None => (w, Rejected (InvalidData path))
    end.

(** [getPathToConfig]. *)
Definition getPathToConfig (h : Host) : string :=
  let common := ["Code"; "User"] in
  if String.eqb (platform h) "win32"
  then pathJoin h ([homedir h; "AppData"; "Roaming"] ++ common)
  else pathJoin h ([homedir h; ".config"] ++ common).

Definition saveSettings (h : Host) : promise unit :=
  fun w =>
    catchLog (andThen (copyFile h (pathJoin h [getPathToConfig h; "settings.json"])
                                  "./settings.json")
                      (fun _ => log Success))
             (emitW [Say SavingSettings] w).

Definition saveKeyBindings (h : Host) : promise unit :=
  fun w =>
    catchLog (andThen (copyFile h (pathJoin h [getPathToConfig h; "keybindings.json"])
                                  "./keybindings.json")
                      (fun _ => log Success))
             (emitW [Say SavingKeyBindings] w).

Definition applySettings (h : Host) : promise unit :=
  fun w =>
    catchLog (andThen (copyFile h "./settings.json"
                                  (pathJoin h [getPathToConfig h; "settings.json"]))
                      (fun _ => log Success))
             (emitW [Say ApplyingSettings] w).

Definition applyKeyBindings (h : Host) : promise unit :=
  fun w =>
    catchLog (andThen (copyFile h "./keybindings.json"
                                  (pathJoin h [getPathToConfig h; "keybindings.json"]))
                      (fun _ => log Success))
             (emitW [Say ApplyingKeyBindings] w).

(** What [installExtensions] and [readInstalledExtensions] receive. *)
Definition hostEnv (h : Host) (w : world) : Env :=
  mkEnv (listing h) (files w !! resolve h "./extensions") (reply h).

(** [readInstalledExtensions()] as a promise of these chains. *)
Definition readInstalled (h : Host) : promise (option string) :=
  fun w =>
    match readInstalledExtensions (hostEnv h w) with
    | (evs, ListValue v) => (emitW (map Core evs) w, Fulfilled v)
    | (evs, ListExit code) => (emitW (map Core evs) w, Halted code)
    end.

Definition saveExtensions (h : Host) : promise unit :=
  fun w =>
    catchLog (andThen (andThen (readInstalled h)
                               (fun list => writeFile h "extensions" list))
                      (fun _ => log Success))
             (emitW [Say SavingExtensions] w).

(** [installExtensions] called as the last step of a chain: it returns
    [undefined] and its own chain runs to the end. *)
Definition installExtensions (h : Host) : promise unit :=
  fun w =>
    let st := Flow.installExtensions (hostEnv h w) (endings h) in
    (emitW (map Core (trace st)) w,
     match status st with
     | Exited code => Halted code
     | _ => Fulfilled tt
     end).

(** [applySettings().then(applyKeyBindings).then(installExtensions)]. *)
Definition applyAll (h : Host) : promise unit :=
  andThen (andThen (applySettings h) (fun _ => applyKeyBindings h))
          (fun _ => installExtensions h).

(** [saveSettings().then(saveKeyBindings).then(saveExtensions)]. *)
Definition saveAll (h : Host) : promise unit :=
  andThen (andThen (saveSettings h) (fun _ => saveKeyBindings h))
          (fun _ => saveExtensions h).

(** The entries of [commands]. *)
Inductive handler :=
| ApplyAll | SaveAll | SaveSettings | ApplySettings | SaveExtensions
| InstallExtensions | Unknown.

Definition commands : list (string * handler) :=
  [("apply-all", ApplyAll); ("save-all", SaveAll);
   ("save-settings", SaveSettings); ("apply-settings", ApplySettings);
   ("save-extensions", SaveExtensions);
   ("install-extensions", InstallExtensions);
   ("__unknown__", Unknown)].

Fixpoint ownProperty (table : list (string * handler)) (name : string)
  : option handler :=
  match table with
  | [] => None
  | (k, c) :: rest => if String.eqb k name then Some c else ownProperty rest name
  end.

(** The property key of [process.argv[2]]; a missing argument is
    [undefined], whose key is the string [undefined]. *)
Definition propertyKey (command : option string) : string :=
  default "undefined" command.

Definition perform (h : Host) (c : handler) : promise unit :=
  match c with
  | ApplyAll => applyAll h
  | SaveAll => saveAll h
  | SaveSettings => saveSettings h
  | ApplySettings => applySettings h
  | SaveExtensions => saveExtensions h
  | InstallExtensions => installExtensions h
  | Unknown =>
      fun w => (emitW [Say UnknownCommand; Core (ProcessExit 0)] w, Halted 0)
  end.

(** [const run = command in commands ? commands[command] :
    commands.__unknown__; run()]. A name found only on Object.prototype
    selects a function that is not part of the script: [None]. *)
Definition main (h : Host) (command : option string) : option (promise unit) :=
  match ownProperty commands (propertyKey command) with
  | Some c => Some (perform h c)
  | None =>
      if inheritedKey h (propertyKey command) then None
      else Some (perform h Unknown)
  end.

End Machine.

(** ** Further vocabulary *)

(** The string has a line feed in it. *)
Fixpoint contains_LF (s : string) : bool :=
  match s with
  | EmptyString => false
  | String c rest => Ascii.eqb c "010"%char || contains_LF rest
  end.

(** The string is made of line feeds only. *)
Fixpoint only_LF (s : string) : bool :=
  match s with
  | EmptyString => true
  | String c rest => Ascii.eqb c "010"%char && only_LF rest
  end.

(** What one line of [code --list-extensions] can hold: a non-empty string
    without line feed. *)
Definition is_entry (s : string) : Prop :=
  truthy s = true ∧ contains_LF s = false.

(** The event is the failure of a command, and the event is a call of
    [console.error]. *)
Definition is_failure (ev : event) : bool :=
  match ev with Settled _ _ false => true | _ => false end.

Definition is_error (ev : event) : bool :=
  match ev with ConsoleError _ => true | _ => false end.

Definition is_any_exec (ev : event) : bool :=
  match ev with Exec _ _ => true | _ => false end.

(** The identifiers of the plan a command may concern. *)
Definition planned (st : state) (op : operation) : list string :=
  match op with
  | Install => extensionsToInstall st
  | Uninstall => extensionsToUninstall st
  end.

(** Every command started or ended concerns an identifier of the plan. *)
Definition in_scope (st : state) (ev : event) : Prop :=
  match ev with
  | Exec op y | Settled op y _ => y ∈ planned st op
  | _ => True
  end.

Record chain_scope (st : state) : Prop := {
  scope_trace : Forall (in_scope st) (trace st);
  scope_running : Forall (λ c, c.2 ∈ planned st c.1) (running st)
}.

(** What else holds of a state of the chain, phase by phase: how far the
    commands have got, and what a failure leaves behind. *)
Record chain_facts (st : state) : Prop := {
  facts_phase :
    match status st with
    | Installing =>
        running st ≠ []
        ∧ never (is_settled Uninstall) (trace st)
        ∧ never is_error (trace st)
        ∧ never is_failure (trace st)
    | Uninstalling =>
        running st ≠ []
        ∧ started Install (trace st) = length (extensionsToInstall st)
        ∧ settled Install (trace st) = length (extensionsToInstall st)
        ∧ started Uninstall (trace st) = length (extensionsToUninstall st)
        ∧ settled Uninstall (trace st) + length (running st)
          = length (extensionsToUninstall st)
        ∧ never is_error (trace st)
        ∧ never is_failure (trace st)
    | Completed =>
        running st = []
        ∧ started Install (trace st) = length (extensionsToInstall st)
        ∧ settled Install (trace st) = length (extensionsToInstall st)
        ∧ started Uninstall (trace st) = length (extensionsToUninstall st)
        ∧ settled Uninstall (trace st) = length (extensionsToUninstall st)
        ∧ never is_error (trace st)
        ∧ never is_failure (trace st)
        ∧ last (trace st) = Some (ConsoleLog MsgSuccess)
    | Failed e =>
        (running st = [] ∧ never is_chain_event (trace st))
        ∨ ∃ op x pre post,
            e = ErrCommand op x
            ∧ trace st = pre ++ Settled op x false :: ConsoleError e :: post
            ∧ never is_failure pre
            ∧ never is_error pre
            ∧ never is_error post
            ∧ never is_any_exec post
            ∧ Forall (λ c, is_op op c = true) (running st)
            ∧ match op with
              | Install =>
                  never (is_exec Uninstall) (trace st)
                  ∧ never (is_settled Uninstall) (trace st)
              | Uninstall =>
                  started Install pre = length (extensionsToInstall st)
                  ∧ settled Install pre = length (extensionsToInstall st)
                  ∧ started Uninstall pre = length (extensionsToUninstall st)
                  ∧ never is_failed_install (trace st)
              end
    | Started | AwaitingAnswer | Exited _ => True
    end
}.

(** A host for the examples: a Linux machine on which every file can be
    written, [./x] and [x] name the same file, and [path.join] puts a slash
    between its arguments. *)
Definition strip_dot (p : string) : string :=
  match p with
  | String "." (String "/" rest) => rest
  | _ => p
  end.

Definition host_linux : Machine.Host :=
  Machine.mkHost "linux" "/home/u" (String.concat "/") strip_dot (fun _ => true)
    (Resolved (lines ["a"; "b"]) "") None (fun _ => false) "y" [].

Definition world_live : Machine.world :=
  Machine.mkWorld {[ "/home/u/.config/Code/User/settings.json" := "{}" ]} [].

(** ** Properties of the helpers *)

Section DiffFacts.

Implicit Types base values acc : list string.

Lemma includes_true arr v : includes arr v = true ↔ v ∈ arr.
Proof.
  induction arr as [|x rest IH]; simpl.
  - split; [discriminate | intros H; inversion H].
  - destruct (String.eqb_spec x v) as [->|Hne].
    + split; [intros _; left | done].
    + rewrite IH. split; [by right |].
      intros H. inversion H; subst; [done | assumption].
Qed.

Lemma includes_false arr v : includes arr v = false ↔ v ∉ arr.
Proof.
  rewrite <- includes_true. destruct (includes arr v); split; done.
Qed.

(** The reduction started on any accumulator appends the kept values. *)
Lemma reduce_filter base values acc :
  foldl (fun acc value => if includes base value then acc else acc ++ [value])
        acc values
  = acc ++ filter (λ v, v ∉ base) values.
Proof.
  revert acc. induction values as [|v vs IH]; intros acc; simpl.
  - by rewrite app_nil_r.
  - rewrite IH. destruct (includes base v) eqn:E.
    + apply includes_true in E. rewrite filter_cons_False; [done | by intros []].
    + apply includes_false in E. rewrite filter_cons_True by done.
      by rewrite <- app_assoc.
Qed.

Lemma diff_filter base values :
  diff base values = filter (λ v, v ∉ base) values.
Proof. unfold diff. by rewrite reduce_filter. Qed.

Lemma elem_of_diff base values x :
  x ∈ diff base values ↔ x ∈ values ∧ x ∉ base.
Proof. rewrite diff_filter, list_elem_of_filter. tauto. Qed.

Lemma NoDup_diff base values : NoDup values → NoDup (diff base values).
Proof. rewrite diff_filter. apply NoDup_filter. Qed.

Lemma diff_nil_iff base values :
  diff base values = [] ↔ ∀ x, x ∈ values → x ∈ base.
Proof.
  split.
  - intros E x Hx. destruct (decide (x ∈ base)) as [|Hn]; [done |].
    assert (x ∈ diff base values) as H by (by apply elem_of_diff).
    rewrite E in H. inversion H.
  - intros H. destruct (diff base values) as [|y l] eqn:E; [done |].
    assert (y ∈ diff base values) as Hy by (rewrite E; left).
    apply elem_of_diff in Hy as [Hy Hn]. by destruct Hn; apply H.
Qed.

(** The store-passing reduction allocates one array, fills it with the
    values [diff] keeps, and leaves every other array as it was. *)
Lemma push_last (h : store) acc v :
  push (length h) v (h ++ [acc]) = h ++ [acc ++ [v]].
Proof.
  unfold push. rewrite alter_app_r_alt by lia.
  by replace (length h - length h) with 0 by lia.
Qed.

Lemma reduce_store base values (h : store) acc :
  foldl (fun h' value => if includes base value then h' else push (length h) value h')
        (h ++ [acc]) values
  = h ++ [foldl (fun acc value => if includes base value then acc else acc ++ [value])
                acc values].
Proof.
  revert acc. induction values as [|v vs IH]; intros acc; simpl; [done |].
  destruct (includes base v); [apply IH |].
  rewrite push_last. apply IH.
Qed.

Lemma diff_store_spec base values (h : store) :
  diff_store base values h = (length h, h ++ [diff base values]).
Proof. unfold diff_store, alloc, diff. f_equal. apply reduce_store. Qed.

Lemma diff_result_pure base values (h : store) :
  diff_result base values h = diff base values.
Proof.
  unfold diff_result. rewrite diff_store_spec. unfold deref.
  rewrite lookup_app_r by lia.
  by replace (length h - length h) with 0 by lia.
Qed.

Lemma plan_store_pure installed saved (h : store) :
  plan_store installed saved h = plan installed saved.
Proof.
  unfold plan_store, plan. rewrite !diff_store_spec. unfold deref. f_equal.
  - rewrite lookup_app_l by (rewrite length_app; simpl; lia).
    rewrite lookup_app_r by lia.
    by replace (length h - length h) with 0 by lia.
  - rewrite lookup_app_r by lia.
    by replace (length (h ++ _) - length (h ++ _)) with 0 by lia.
Qed.

End DiffFacts.

(** ** The reconciliation plan as sets *)

Section PlanFacts.

Implicit Types live saved : list string.

Lemma ids_diff base values : ids (diff base values) = ids values ∖ ids base.
Proof.
  apply set_eq. intros x. unfold ids.
  rewrite elem_of_difference, !elem_of_list_to_set. apply elem_of_diff.
Qed.

(** C1. For deduplicated lists [live] (the LiveSet L) and [saved] (the
    SavedSet S) the plan (I, U) is I = S \ L and U = L \ S as sets, I and U
    are disjoint, I ∪ U ∪ (L ∩ S) = L ∪ S, and I and U are themselves free
    of duplicates. *)
Theorem plan_is_set_difference live saved :
  NoDup live → NoDup saved →
  let toInstall := (plan live saved).1 in
  let toUninstall := (plan live saved).2 in
  ids toInstall = ids saved ∖ ids live
  ∧ ids toUninstall = ids live ∖ ids saved
  ∧ ids toInstall ∩ ids toUninstall = ∅
  ∧ ids toInstall ∪ ids toUninstall ∪ (ids live ∩ ids saved) = ids live ∪ ids saved
  ∧ NoDup toInstall ∧ NoDup toUninstall.
Proof.
  intros Hlive Hsaved. unfold plan. simpl. rewrite !ids_diff.
  repeat split.
  - apply set_eq. intros x. set_unfold. tauto.
  - apply set_eq. intros x. set_unfold.
    destruct (decide (x ∈ live)), (decide (x ∈ saved)); tauto.
  - by apply NoDup_diff.
  - by apply NoDup_diff.
Qed.

Lemma plan_is_set_difference_witness :
  let live := ["a"; "b"] in
  let saved := ["b"; "c"] in
  plan live saved = (["c"], ["a"])
  ∧ ids (plan live saved).1 = ids saved ∖ ids live
  ∧ ids (plan live saved).2 = ids live ∖ ids saved.
Proof.
  intros live saved. split; [reflexivity |].
  assert (NoDup live) as Hlive by compute_done.
  assert (NoDup saved) as Hsaved by compute_done.
  destruct (plan_is_set_difference live saved Hlive Hsaved) as (H1 & H2 & _).
  exact (conj H1 H2).
Defined.

(** C7. Once the plan (I, U) of L and S has been carried out, any list
    [live'] of the installed identifiers (L ∪ I) \ U gives the empty plan
    against the same S. *)
Theorem plan_idempotent live saved live' :
  ids live' = (ids live ∪ ids (plan live saved).1) ∖ ids (plan live saved).2 →
  plan live' saved = ([], []).
Proof.
  unfold plan. simpl. rewrite !ids_diff. intros H.
  assert (∀ x, x ∈ live' ↔ x ∈ saved) as Heq.
  { intros x. rewrite <- (elem_of_list_to_set (C:=gset string) x live').
    rewrite <- (elem_of_list_to_set (C:=gset string) x saved).
    fold (ids live') (ids saved). rewrite H. set_unfold.
    destruct (decide (x ∈ live)), (decide (x ∈ saved)); tauto. }
  f_equal; apply diff_nil_iff; intros x Hx; by apply Heq.
Qed.

Lemma plan_idempotent_witness :
  plan ["b"; "c"] ["b"; "c"] = ([], []).
Proof.
  apply (plan_idempotent ["a"; "b"] ["b"; "c"] ["b"; "c"]).
  apply set_eq. intros x. unfold ids. simpl. set_unfold. split.
  - intros [->|[->|[]]]; (split; [tauto | intros [H|[]]; discriminate]).
  - intros [[[->|[->|[]]]|[->|[]]] Hn]; tauto.
Defined.

(** C8. The reconciler is deterministic: whatever arrays the store holds
    when it runs, the same two input lists give [extensionsToInstall] and
    [extensionsToUninstall] with the same elements in the same order, and so
    does each call of [diff]. *)
Theorem reconciler_deterministic (installed saved : list string) (h1 h2 : store) :
  plan_store installed saved h1 = plan_store installed saved h2
  ∧ diff_result installed saved h1 = diff_result installed saved h2
  ∧ diff_result saved installed h1 = diff_result saved installed h2.
Proof. by rewrite !plan_store_pure, !diff_result_pure. Qed.

(** C9. [diff base values] is the subsequence of [values] of the elements
    that are not in [base]: in the order of [values], once per occurrence.
    Hence [extensionsToInstall] keeps the order of the saved list and
    [extensionsToUninstall] that of the installed list. *)
Theorem diff_is_subsequence (base values : list string) :
  diff base values = filter (λ v, v ∉ base) values
  ∧ diff base values `sublist_of` values
  ∧ (∀ v, v ∉ base → occurrences v (diff base values) = occurrences v values)
  ∧ (plan base values).1 `sublist_of` values
  ∧ (plan base values).2 `sublist_of` base.
Proof.
  assert (∀ b vs, diff b vs `sublist_of` vs) as Hsub.
  { intros b vs. rewrite diff_filter. apply sublist_filter. }
  split; [apply diff_filter |]. split; [apply Hsub |].
  split; [| split; apply Hsub].
  intros v Hv. rewrite diff_filter. unfold occurrences.
  induction values as [|w ws IH]; [done |].
  destruct (decide (w ∈ base)) as [Hin|Hout].
  - rewrite (filter_cons_False (λ v, v ∉ base)) by (by intros []).
    rewrite (filter_cons_False (λ x, x = v)); [exact IH | by intros ->].
  - rewrite (filter_cons_True (λ v, v ∉ base)) by done.
    destruct (decide (w = v)) as [->|Hne].
    + rewrite !(filter_cons_True (λ x, x = v)) by done. simpl. by rewrite IH.
    + by rewrite !(filter_cons_False (λ x, x = v)) by done.
Qed.

Example diff_keeps_duplicates : diff ["a"] ["c"; "b"; "a"; "b"] = ["c"; "b"; "b"].
Proof. reflexivity. Qed.

End PlanFacts.

(** ** The chain up to the first wait *)

Section Launch.

Variable env : Env.
Variables stdout content : string.
Hypothesis Hlist : listExtensions env = Resolved stdout "".

Let installed := transformExtensionsStringToArray stdout.
Let saved := transformExtensionsStringToArray content.

Lemma launch_no_file :
  extensionsFile env = None →
  launch env =
    mkState [] [] [] (Failed ErrNoEntry)
      [ConsoleLog MsgInstallingExtensions; ConsoleLog MsgRule; CreateInterface;
       ExecList; ReadExtensionsFile; ConsoleError ErrNoEntry].
Proof.
  intros Hfile. unfold launch, readInstalledExtensions. rewrite Hlist. simpl.
  unfold computePlan. by rewrite Hfile.
Qed.

Lemma launch_empty_file :
  extensionsFile env = Some content → saved = [] →
  launch env =
    mkState [] [] [] (Exited 1)
      [ConsoleLog MsgInstallingExtensions; ConsoleLog MsgRule; CreateInterface;
       ExecList; ReadExtensionsFile; ConsoleLog MsgFileEmpty; ProcessExit 1].
Proof.
  intros Hfile Hsaved. unfold launch, readInstalledExtensions. rewrite Hlist. simpl.
  unfold computePlan. rewrite Hfile. fold saved. by rewrite Hsaved.
Qed.

Lemma launch_nothing_to_do :
  extensionsFile env = Some content → saved ≠ [] →
  plan installed saved = ([], []) →
  launch env =
    mkState [] [] [] (Exited 0)
      [ConsoleLog MsgInstallingExtensions; ConsoleLog MsgRule; CreateInterface;
       ExecList; ReadExtensionsFile; ConsoleLog MsgNothing; ProcessExit 0].
Proof.
  intros Hfile Hsaved Hplan. unfold launch, readInstalledExtensions.
  rewrite Hlist. simpl. unfold computePlan. rewrite Hfile.
  fold saved installed.
  assert ((length saved =? 0)%nat = false) as -> by (by destruct saved).
  injection Hplan as HI HU.
  cbn [assign extensionsToInstall extensionsToUninstall]. by rewrite HI, HU.
Qed.

(** With a plan that is not empty the prompt is issued and the second
    callback runs on the answer. *)
Lemma launch_prompted :
  extensionsFile env = Some content → saved ≠ [] →
  plan installed saved ≠ ([], []) →
  launch env =
    onAnswer (answer env)
      (mkState (diff installed saved) (diff saved installed) [] AwaitingAnswer
         [ConsoleLog MsgInstallingExtensions; ConsoleLog MsgRule; CreateInterface;
          ExecList; ReadExtensionsFile;
          Question (diff installed saved) (diff saved installed)]).
Proof.
  intros Hfile Hsaved Hplan. unfold launch, readInstalledExtensions.
  rewrite Hlist. simpl. unfold computePlan. rewrite Hfile.
  fold saved installed.
  assert ((length saved =? 0)%nat = false) as -> by (by destruct saved).
  unfold plan in Hplan. cbn [assign extensionsToInstall extensionsToUninstall].
  by destruct (diff installed saved) as [|i0 I0], (diff saved installed) as [|u0 U0].
Qed.

End Launch.

(** ** Counting events *)

Section TraceFacts.

Implicit Types (tr evs : list event) (p q : event → bool) (op : operation).

Lemma started_app op tr evs : started op (tr ++ evs) = started op tr + started op evs.
Proof. unfold started. by rewrite List.filter_app, length_app. Qed.

Lemma settled_app op tr evs : settled op (tr ++ evs) = settled op tr + settled op evs.
Proof. unfold settled. by rewrite List.filter_app, length_app. Qed.

Lemma never_app p tr evs : never p (tr ++ evs) ↔ never p tr ∧ never p evs.
Proof. apply Forall_app. Qed.

Lemma never_weaken p q tr :
  (∀ ev, p ev = true → q ev = true) → never q tr → never p tr.
Proof.
  intros Hpq H. eapply Forall_impl; [exact H |]. intros ev Hq. simpl in Hq.
  destruct (p ev) eqn:E; [| done]. apply Hpq in E. congruence.
Qed.

Lemma never_not_elem_of p tr ev : never p tr → p ev = true → ev ∉ tr.
Proof.
  intros Hn Hp Hin. unfold never in Hn. rewrite Forall_forall in Hn.
  specialize (Hn ev Hin). congruence.
Qed.

Lemma never_count p tr : never p tr → List.filter p tr = [].
Proof.
  induction 1 as [|ev tr Hev _ IH]; [done |]. simpl. by rewrite Hev.
Qed.

Lemma quiet_started op tr : never is_chain_event tr → started op tr = 0.
Proof.
  intros H. unfold started. rewrite never_count; [done |].
  revert H. apply never_weaken. by intros [].
Qed.

Lemma quiet_settled op tr : never is_chain_event tr → settled op tr = 0.
Proof.
  intros H. unfold settled. rewrite never_count; [done |].
  revert H. apply never_weaken. by intros [].
Qed.

Lemma quiet_never_failed tr : never is_chain_event tr → never is_failed_install tr.
Proof. apply never_weaken. by intros []. Qed.

(** The events of [extensions.map(installExtension)]. *)
Lemma spawn_started op l :
  started op (concat (map (runExtensionCommand op) l)) = length l.
Proof.
  unfold started. induction l as [|x l IH]; [done |].
  destruct op; simpl; by rewrite IH.
Qed.

Lemma spawn_never p op l :
  (∀ x, p (ConsoleLog (announce op x)) = false) →
  (∀ x, p (Exec op x) = false) →
  never p (concat (map (runExtensionCommand op) l)).
Proof.
  intros H1 H2. induction l as [|x l IH]; [constructor |].
  simpl. constructor; [apply H1 |]. constructor; [apply H2 | exact IH].
Qed.

Lemma spawn_settled op' op l :
  settled op' (concat (map (runExtensionCommand op) l)) = 0.
Proof.
  unfold settled. rewrite never_count; [done |].
  apply spawn_never; intros x; by destruct op.
Qed.

(** Splitting a trace at the start of an uninstall. *)
Lemma barrier_never n tr : never (is_exec Uninstall) tr → barrier n tr.
Proof.
  intros Hn pre x post ->. exfalso.
  eapply (never_not_elem_of _ _ (Exec Uninstall x)); [exact Hn | done |].
  apply elem_of_app. right. left.
Qed.

Lemma barrier_app_never n tr evs :
  barrier n tr → never (is_exec Uninstall) evs → barrier n (tr ++ evs).
Proof.
  intros Hb Hn pre x post Heq.
  apply app_eq_inv in Heq as [(k & -> & Hk)|(k & -> & Hevs)].
  - destruct k as [|ev k]; simpl in Hk.
    + exfalso. eapply (never_not_elem_of _ _ (Exec Uninstall x)); [exact Hn | done |].
      rewrite <- Hk. left.
    + injection Hk as <- ->. by apply (Hb pre x k).
  - exfalso. eapply (never_not_elem_of _ _ (Exec Uninstall x)); [exact Hn | done |].
    rewrite Hevs. apply elem_of_app. right. left.
Qed.

Lemma barrier_app_spawn n tr l :
  barrier n tr → started Install tr = n → settled Install tr = n →
  barrier n (tr ++ concat (map (runExtensionCommand Uninstall) l)).
Proof.
  intros Hb Hs Hd pre x post Heq.
  apply app_eq_inv in Heq as [(k & -> & Hk)|(k & -> & Hevs)].
  - destruct k as [|ev k]; simpl in Hk.
    + by rewrite app_nil_r in Hs, Hd.
    + injection Hk as <- ->. by apply (Hb pre x k).
  - assert (never (is_exec Install) (k ++ Exec Uninstall x :: post)
            ∧ never (is_settled Install) (k ++ Exec Uninstall x :: post)) as [H1 H2].
    { rewrite <- Hevs. split; by apply spawn_never. }
    apply never_app in H1 as [H1 _]. apply never_app in H2 as [H2 _].
    rewrite started_app, settled_app. unfold started at 2, settled at 2.
    rewrite !never_count by done. simpl. lia.
Qed.

End TraceFacts.

(** ** The invariant of the chain *)

Section ChainInvariant.

Ltac solve_never :=
  repeat match goal with
  | H : never ?p ?tr |- never ?p ?tr => exact H
  | |- never _ (_ ++ _) => apply never_app; split
  | |- never _ (concat (map (runExtensionCommand _) [])) => constructor
  | |- never _ (concat (map (runExtensionCommand _) _)) =>
      apply spawn_never; intros; reflexivity
  | |- never _ [] => constructor
  | |- never _ (_ :: _) => constructor; [reflexivity |]
  | |- Forall _ [] => constructor
  | |- Forall _ (_ :: _) => constructor; [reflexivity |]
  | H : never is_chain_event ?tr |- never _ ?tr =>
      revert H; apply never_weaken;
      let ev := fresh "ev" in intros ev; destruct ev as [[]| | | | | | | | |]; done
  end.

Ltac fields :=
  cbn [set_status spawn emit catch exit complete assign
       trace running status extensionsToInstall extensionsToUninstall].

Lemma settle_idle st s : running st = [] → settle st s = st.
Proof. intros H. destruct s as [k ok]. unfold settle. by rewrite H. Qed.

Lemma run_idle st sched : running st = [] → foldl settle st sched = st.
Proof.
  intros H. induction sched as [|s sched IH]; [done |].
  simpl. by rewrite settle_idle.
Qed.

Lemma Forall_spawned op l : Forall (λ c, is_op op c = true) (map (pair op) l).
Proof. induction l; constructor; [by destruct op | done]. Qed.

Lemma filter_all_of op (l : list (operation * string)) :
  Forall (λ c, is_op op c = true) l → List.filter (is_op op) l = l.
Proof. induction 1 as [|c l Hc _ IH]; [done |]. simpl. by rewrite Hc, IH. Qed.

Lemma chain_inv_startUninstalling st :
  running st = [] →
  barrier (length (extensionsToInstall st)) (trace st) →
  started Install (trace st) = length (extensionsToInstall st) →
  settled Install (trace st) = length (extensionsToInstall st) →
  never is_failed_install (trace st) →
  never is_success (trace st) →
  chain_inv (startUninstalling st).
Proof.
  intros Hrun Hb Hs Hd Hf Hok. unfold startUninstalling.
  destruct (extensionsToUninstall st) as [|u U] eqn:EU.
  - split; fields.
    + apply barrier_app_never; [| solve_never].
      apply barrier_app_never; [done | solve_never].
    + rewrite Hrun. split; [constructor | solve_never].
  - split; fields.
    + by apply barrier_app_spawn.
    + rewrite Hrun. split; [apply Forall_spawned |]. split; solve_never.
Qed.

Lemma chain_inv_startInstalling st :
  running st = [] → never is_chain_event (trace st) →
  chain_inv (startInstalling st).
Proof.
  intros Hrun Hq. unfold startInstalling.
  destruct (extensionsToInstall st) as [|i l] eqn:EI.
  - apply chain_inv_startUninstalling; fields; rewrite ?EI, ?Hrun; try done.
    + apply barrier_never. solve_never.
    + rewrite started_app. by rewrite quiet_started.
    + rewrite settled_app. by rewrite quiet_settled.
    + solve_never.
    + solve_never.
  - split; fields; rewrite EI.
    + apply barrier_never. solve_never.
    + rewrite Hrun. split; [| split; [| split; [| split; [| split]]]].
      * rewrite started_app, quiet_started by done. apply spawn_started.
      * rewrite settled_app, quiet_settled, spawn_settled by done.
        rewrite app_nil_l, length_map. done.
      * apply Forall_spawned.
      * solve_never.
      * solve_never.
      * solve_never.
Qed.

Lemma settled_one op x ok tr :
  settled op (tr ++ [Settled op x ok]) = settled op tr + 1.
Proof. rewrite settled_app. unfold settled at 2. by destruct op. Qed.

Lemma started_settle op op' x ok tr :
  started op (tr ++ [Settled op' x ok]) = started op tr.
Proof. rewrite started_app. unfold started at 2. simpl. lia. Qed.

Lemma lookup_op op (l : list (operation * string)) k op' x :
  Forall (λ c, is_op op c = true) l → l !! k = Some (op', x) → op' = op.
Proof.
  intros Hall Hk. apply (Forall_lookup_1 _ _ _ _ Hall) in Hk.
  by destruct op, op'.
Qed.

(** Every step of the schedule preserves the invariant. *)
Lemma chain_inv_settle st s : chain_inv st → chain_inv (settle st s).
Proof.
  intros [Hb Hph]. destruct s as [k ok]. unfold settle.
  destruct (running st !! k) as [[op x]|] eqn:Hk; [| by split].
  assert (is_Some (running st !! k)) as Hsome by eauto.
  pose proof (length_delete _ _ Hsome) as Hlen.
  apply lookup_lt_is_Some in Hsome.
  destruct (status st) eqn:Est.
  - destruct Hph as [Hrun _]. by rewrite Hrun in Hk.
  - destruct Hph as [Hrun _]. by rewrite Hrun in Hk.
  - destruct Hph as (Hs & Hd & Hall & Hu & Hok & Hf).
    assert (op = Install) as -> by eauto using lookup_op.
    destruct ok.
    + unfold pending. fields.
      rewrite filter_all_of by (by apply Forall_delete).
      destruct (delete k (running st)) as [|c rest] eqn:Edel.
      * apply chain_inv_startUninstalling; fields; try done.
        -- apply barrier_app_never; [done | solve_never].
        -- by rewrite started_settle.
        -- rewrite settled_one. simpl in Hlen. lia.
        -- solve_never.
        -- solve_never.
      * split; fields; rewrite ?Est.
        -- apply barrier_app_never; [done | solve_never].
        -- rewrite started_settle, settled_one. simpl in Hlen.
           split; [done |]. split; [simpl; lia |].
           split; [rewrite <- Edel; by apply Forall_delete |].
           repeat split; solve_never.
    + split; fields.
      * apply barrier_app_never; [| solve_never].
        apply barrier_app_never; [done | solve_never].
      * split; [apply elem_of_app; right; left |].
        split; [solve_never |]. left. solve_never.
  - destruct Hph as (Hall & Hok & Hf).
    assert (op = Uninstall) as -> by eauto using lookup_op.
    destruct ok.
    + unfold pending. fields.
      rewrite filter_all_of by (by apply Forall_delete).
      destruct (delete k (running st)) as [|c rest] eqn:Edel.
      * split; fields.
        -- apply barrier_app_never; [| solve_never].
           apply barrier_app_never; [done | solve_never].
        -- split; [constructor | solve_never].
      * split; fields; rewrite ?Est.
        -- apply barrier_app_never; [done | solve_never].
        -- split; [rewrite <- Edel; by apply Forall_delete |].
           split; solve_never.
    + split; fields.
      * apply barrier_app_never; [| solve_never].
        apply barrier_app_never; [done | solve_never].
      * split; [apply elem_of_app; right; left |].
        split; [solve_never |]. right.
        split; [by apply Forall_delete | solve_never].
  - destruct Hph as [Hrun _]. by rewrite Hrun in Hk.
  - destruct Hph as (Herr & Hok & Hcases).
    assert (chain_inv
              (mkState (extensionsToInstall st) (extensionsToUninstall st)
                 (delete k (running st)) (Failed e)
                 (trace st ++ [Settled op x ok]))) as Hgoal.
    { destruct Hcases as [Hu|[Hall Hf]].
      - split; fields.
        + apply barrier_app_never; [done | solve_never].
        + split; [apply elem_of_app; by left |].
          split; [solve_never |]. left. solve_never.
      - assert (op = Uninstall) as -> by eauto using lookup_op.
        split; fields.
        + apply barrier_app_never; [done | solve_never].
        + split; [apply elem_of_app; by left |].
          split; [solve_never |]. right.
          split; [by apply Forall_delete | solve_never]. }
    by destruct op.
  - destruct Hph as [Hall Hf].
    assert (op = Uninstall) as -> by eauto using lookup_op.
    split; fields; rewrite ?Est.
    + apply barrier_app_never; [done | solve_never].
    + split; [by apply Forall_delete | solve_never].
Qed.

Lemma chain_inv_run st sched : chain_inv st → chain_inv (foldl settle st sched).
Proof.
  revert st. induction sched as [|s sched IH]; intros st Hst; [done |].
  simpl. by apply IH, chain_inv_settle.
Qed.

(** The chain satisfies the invariant when it first waits. *)
Lemma chain_inv_launch env : chain_inv (launch env).
Proof.
  unfold launch, readInstalledExtensions.
  destruct (listExtensions env) as [stdout stderr|].
  - destruct (truthy stderr).
    + split; fields; [apply barrier_never |]; unfold initial; fields.
      * solve_never.
      * split; [done | solve_never].
    + unfold computePlan. destruct (extensionsFile env) as [content|].
      * destruct (length (transformExtensionsStringToArray content) =? 0)%nat.
        -- split; fields; [apply barrier_never |]; unfold initial; fields.
           ++ solve_never.
           ++ split; [done | solve_never].
        -- fields.
           destruct ((length (diff (transformExtensionsStringToArray content)
                                   (transformExtensionsStringToArray stdout)) =? 0)%nat
                     && (length (diff (transformExtensionsStringToArray stdout)
                                      (transformExtensionsStringToArray content)) =? 0)%nat).
           ++ split; fields; [apply barrier_never |]; unfold initial; fields.
              ** solve_never.
              ** split; [done | solve_never].
           ++ fields. unfold onAnswer.
              destruct (negb (String.eqb (answer env) "y")).
              ** split; fields; [apply barrier_never |]; unfold initial; fields.
                 --- solve_never.
                 --- split; [done | solve_never].
              ** apply chain_inv_startInstalling; fields; [done |].
                 unfold initial; fields. solve_never.
      * split; fields; [apply barrier_never |]; unfold initial; fields.
        -- solve_never.
        -- split; [apply elem_of_app; right; left |].
           split; [solve_never |]. left. solve_never.
  - unfold computePlan.
    split; fields; [apply barrier_never |]; unfold initial; fields.
    + solve_never.
    + split; [apply elem_of_app; right; left |].
      split; [solve_never |]. left. solve_never.
Qed.

Lemma chain_inv_installExtensions env sched :
  chain_inv (installExtensions env sched).
Proof. apply chain_inv_run, chain_inv_launch. Qed.

(** The trace only grows, and [process.exit] is never reached from the
    install and uninstall phases. *)
Lemma settle_prefix st s : trace st `prefix_of` trace (settle st s).
Proof.
  destruct s as [k ok]. unfold settle.
  destruct (running st !! k) as [[op x]|]; [| done].
  unfold startUninstalling, pending.
  repeat match goal with
  | |- context [match ?d with _ => _ end] => destruct d
  end; fields; rewrite <- ?app_assoc; by apply prefix_app_r.
Qed.

Lemma run_prefix st sched : trace st `prefix_of` trace (foldl settle st sched).
Proof.
  revert st. induction sched as [|s sched IH]; intros st; [done |].
  simpl. etrans; [apply settle_prefix | apply IH].
Qed.

Lemma settle_exited st s code :
  status (settle st s) = Exited code → status st = Exited code.
Proof.
  destruct s as [k ok]. unfold settle.
  destruct (running st !! k) as [[op x]|]; [| done].
  unfold startUninstalling, pending.
  repeat match goal with
  | |- context [match ?d with _ => _ end] => destruct d
  end; fields; done.
Qed.

Lemma run_exited st sched code :
  status (foldl settle st sched) = Exited code → status st = Exited code.
Proof.
  revert st. induction sched as [|s sched IH]; intros st; [done |].
  simpl. intros H. by apply (settle_exited st s), IH.
Qed.

End ChainInvariant.

(** ** The command: guards, prompt, phases *)

Section Command.

Ltac fields :=
  cbn [set_status spawn emit catch exit complete assign
       trace running status extensionsToInstall extensionsToUninstall].

(** An event of another shape is not in an explicit trace. *)
Ltac absent :=
  let H := fresh "Hin" in
  intros H;
  repeat (apply elem_of_cons in H as [H|H]; [discriminate H |]);
  by apply elem_of_nil in H.

Lemma settle_plan st s :
  extensionsToInstall (settle st s) = extensionsToInstall st
  ∧ extensionsToUninstall (settle st s) = extensionsToUninstall st.
Proof.
  destruct s as [k ok]. unfold settle.
  destruct (running st !! k) as [[op x]|]; [| done].
  unfold startUninstalling, pending.
  repeat match goal with
  | |- context [match ?d with _ => _ end] => destruct d
  end; fields; done.
Qed.

Lemma run_plan st sched :
  extensionsToInstall (foldl settle st sched) = extensionsToInstall st
  ∧ extensionsToUninstall (foldl settle st sched) = extensionsToUninstall st.
Proof.
  revert st. induction sched as [|s sched IH]; intros st; [done |].
  simpl. destruct (IH (settle st s)) as [-> ->]. apply settle_plan.
Qed.

Lemma spawn_elem_of op l y :
  y ∈ l → Exec op y ∈ concat (map (runExtensionCommand op) l).
Proof.
  induction l as [|x l IH]; intros Hy; [inversion Hy |].
  simpl. right. apply elem_of_cons in Hy as [->|Hy]; [left | right; by apply IH].
Qed.

Lemma startInstalling_attempts st y :
  y ∈ extensionsToInstall (startInstalling st) →
  Exec Install y ∈ trace (startInstalling st).
Proof.
  unfold startInstalling, startUninstalling.
  destruct (extensionsToInstall st) as [|i l] eqn:EI.
  - destruct (extensionsToUninstall _); fields; rewrite EI; by inversion 1.
  - fields. rewrite EI. intros Hy.
    apply elem_of_app. right. by apply spawn_elem_of.
Qed.

(** The earlier revision runs the same chain. *)
Lemma IndexJs_installExtensions env sched :
  IndexJs.installExtensions env sched = installExtensions env sched.
Proof. reflexivity. Qed.

(** C3, as amended. With the [extensions] file absent or without a
    non-blank line, no plan is assigned, the prompt is not issued and no
    install or uninstall is started. Both of the following hold when the
    installed list was obtained, that is, when the list command resolved
    with nothing on its error stream: a file without entries ends the run by
    [process.exit(1)] right after the message about the empty file; an absent
    file makes the read throw, the error goes to the chain's
    [.catch(console.error)] and [process.exit] is not called. *)
Theorem missing_snapshot_stops_before_plan (env : Env) (sched : list settlement) :
  (extensionsFile env = None
   ∨ ∃ content, extensionsFile env = Some content
                ∧ transformExtensionsStringToArray content = []) →
  let st := installExtensions env sched in
  extensionsToInstall st = [] ∧ extensionsToUninstall st = []
  ∧ (∀ toInstall toUninstall, Question toInstall toUninstall ∉ trace st)
  ∧ (∀ op x, Exec op x ∉ trace st)
  ∧ (∀ stdout, listExtensions env = Resolved stdout "" →
       (extensionsFile env ≠ None →
          status st = Exited 1
          ∧ trace st =
              [ConsoleLog MsgInstallingExtensions; ConsoleLog MsgRule;
               CreateInterface; ExecList; ReadExtensionsFile;
               ConsoleLog MsgFileEmpty; ProcessExit 1])
       ∧ (extensionsFile env = None →
          status st = Failed ErrNoEntry
          ∧ (∀ code, ProcessExit code ∉ trace st)
          ∧ trace st =
              [ConsoleLog MsgInstallingExtensions; ConsoleLog MsgRule;
               CreateInterface; ExecList; ReadExtensionsFile;
               ConsoleError ErrNoEntry])).
Proof.
  intros Hfile st.
  assert (∃ tr code e,
            (launch env = mkState [] [] [] (Exited code) tr
             ∨ launch env = mkState [] [] [] (Failed e) tr)
            ∧ (∀ toInstall toUninstall, Question toInstall toUninstall ∉ tr)
            ∧ (∀ op x, Exec op x ∉ tr)) as (tr & code & e & Hlaunch & Hq & Hx).
  { unfold launch, readInstalledExtensions, computePlan, initial.
    destruct (listExtensions env) as [stdout stderr|].
    - destruct (truthy stderr).
      + eexists _, 1%Z, ErrNoEntry. split; [left; reflexivity |].
        split; intros; absent.
      + fields. destruct Hfile as [->|(content & -> & ->)].
        * eexists _, 1%Z, ErrNoEntry. split; [right; reflexivity |].
          split; intros; absent.
        * eexists _, 1%Z, ErrNoEntry. split; [left; reflexivity |].
          split; intros; absent.
    - eexists _, 1%Z, ErrTypeError. split; [right; reflexivity |].
      split; intros; absent. }
  assert (st = launch env) as Hst.
  { subst st. unfold installExtensions. apply run_idle.
    by destruct Hlaunch as [->| ->]. }
  split; [rewrite Hst; by destruct Hlaunch as [->| ->] |].
  split; [rewrite Hst; by destruct Hlaunch as [->| ->] |].
  split; [rewrite Hst; by destruct Hlaunch as [->| ->] |].
  split; [rewrite Hst; by destruct Hlaunch as [->| ->] |].
  intros stdout Hlist. rewrite Hst. split.
  - intros Hsome. destruct Hfile as [Hnone|(content & Hcontent & Hempty)]; [done |].
    by rewrite (launch_empty_file env stdout content Hlist Hcontent Hempty).
  - intros Hnone. rewrite (launch_no_file env stdout Hlist Hnone). fields.
    split; [done |]. split; [| done]. intros c. absent.
Qed.

Lemma missing_snapshot_stops_before_plan_witness :
  status (installExtensions env_blank_file [Settle 0 true]) = Exited 1
  ∧ status (installExtensions env_no_file [Settle 0 true]) = Failed ErrNoEntry.
Proof.
  split.
  - assert (extensionsFile env_blank_file = None
            ∨ ∃ content, extensionsFile env_blank_file = Some content
                         ∧ transformExtensionsStringToArray content = []) as H
      by (right; eexists; split; reflexivity).
    destruct (missing_snapshot_stops_before_plan env_blank_file [Settle 0 true] H)
      as (_ & _ & _ & _ & Hrun).
    destruct (Hrun _ eq_refl) as [Hempty _]. by apply Hempty.
  - destruct (missing_snapshot_stops_before_plan env_no_file [Settle 0 true]
                (or_introl eq_refl)) as (_ & _ & _ & _ & Hrun).
    destruct (Hrun _ eq_refl) as [_ Habsent]. by apply Habsent.
Defined.

(** C3 as stated fails: without an [extensions] file the run does not end
    by [process.exit(1)]; the error of the read is logged instead. *)
Lemma missing_file_counterexample :
  let st := installExtensions env_no_file [] in
  extensionsFile env_no_file = None
  ∧ status st = Failed ErrNoEntry
  ∧ status st ≠ Exited 1
  ∧ ProcessExit 1 ∉ trace st.
Proof.
  split; [reflexivity |]. split; [reflexivity |]. split; [discriminate |].
  vm_compute. absent.
Qed.

(** C5. When the installed list and the saved list give the empty plan, the
    run goes straight to [process.exit(0)] after the message that nothing
    is to be done: the prompt is not issued and no install or uninstall is
    started. *)
Theorem empty_plan_is_noop (env : Env) (sched : list settlement)
    (stdout content : string) :
  listExtensions env = Resolved stdout "" →
  extensionsFile env = Some content →
  transformExtensionsStringToArray content ≠ [] →
  plan (transformExtensionsStringToArray stdout)
       (transformExtensionsStringToArray content) = ([], []) →
  let st := installExtensions env sched in
  status st = Exited 0
  ∧ trace st =
      [ConsoleLog MsgInstallingExtensions; ConsoleLog MsgRule; CreateInterface;
       ExecList; ReadExtensionsFile; ConsoleLog MsgNothing; ProcessExit 0]
  ∧ (∀ toInstall toUninstall, Question toInstall toUninstall ∉ trace st)
  ∧ (∀ op x, Exec op x ∉ trace st).
Proof.
  intros Hlist Hfile Hsaved Hplan st. subst st. unfold installExtensions.
  rewrite (launch_nothing_to_do env stdout content Hlist Hfile Hsaved Hplan).
  rewrite run_idle by done. fields.
  split; [done |]. split; [done |]. split; intros; absent.
Qed.

Lemma empty_plan_is_noop_witness :
  status (installExtensions env_in_sync [Settle 0 true]) = Exited 0.
Proof.
  apply (empty_plan_is_noop env_in_sync [Settle 0 true]
           (lines ["a"; "b"]) (lines ["a"; "b"]));
    [reflexivity | reflexivity | discriminate | reflexivity].
Defined.

(** A run whose prompt is answered by anything but [y]. *)
Lemma declined_run (env : Env) (sched : list settlement)
    (stdout content : string) :
  listExtensions env = Resolved stdout "" →
  extensionsFile env = Some content →
  transformExtensionsStringToArray content ≠ [] →
  plan (transformExtensionsStringToArray stdout)
       (transformExtensionsStringToArray content) ≠ ([], []) →
  answer env ≠ "y" →
  installExtensions env sched =
    mkState (diff (transformExtensionsStringToArray stdout)
                  (transformExtensionsStringToArray content))
            (diff (transformExtensionsStringToArray content)
                  (transformExtensionsStringToArray stdout))
            [] (Exited 0)
            [ConsoleLog MsgInstallingExtensions; ConsoleLog MsgRule;
             CreateInterface; ExecList; ReadExtensionsFile;
             Question (diff (transformExtensionsStringToArray stdout)
                            (transformExtensionsStringToArray content))
                      (diff (transformExtensionsStringToArray content)
                            (transformExtensionsStringToArray stdout));
             RlClose; ProcessExit 0].
Proof.
  intros Hlist Hfile Hsaved Hplan Hanswer. unfold installExtensions.
  rewrite (launch_prompted env stdout content Hlist Hfile Hsaved Hplan).
  unfold onAnswer. apply String.eqb_neq in Hanswer. rewrite Hanswer.
  cbn [negb]. by rewrite run_idle.
Qed.

(** C4. With a plan that is not empty, any answer other than [y] cancels
    the run: after [rl.close()] the process exits with code 0, and no
    install or uninstall is ever started. *)
Theorem decline_cancels (env : Env) (sched : list settlement)
    (stdout content : string) :
  listExtensions env = Resolved stdout "" →
  extensionsFile env = Some content →
  transformExtensionsStringToArray content ≠ [] →
  plan (transformExtensionsStringToArray stdout)
       (transformExtensionsStringToArray content) ≠ ([], []) →
  answer env ≠ "y" →
  let st := installExtensions env sched in
  status st = Exited 0
  ∧ (∀ op x, Exec op x ∉ trace st)
  ∧ running st = []
  ∧ trace st =
      [ConsoleLog MsgInstallingExtensions; ConsoleLog MsgRule; CreateInterface;
       ExecList; ReadExtensionsFile;
       Question (extensionsToInstall st) (extensionsToUninstall st);
       RlClose; ProcessExit 0].
Proof.
  intros Hlist Hfile Hsaved Hplan Hanswer st. subst st.
  rewrite (declined_run env sched stdout content Hlist Hfile Hsaved Hplan Hanswer).
  fields. split; [done |]. split; [intros; absent | done].
Qed.

Lemma decline_cancels_witness :
  status (installExtensions (env_answering "n") [Settle 0 true]) = Exited 0.
Proof.
  apply (decline_cancels (env_answering "n") [Settle 0 true]
           (lines ["a"; "b"]) (lines ["b"; "c"]));
    [reflexivity | reflexivity | discriminate | discriminate | discriminate].
Defined.

(** C10. The answer that confirms is the one-character string [y] and no
    other: at the prompt, in this revision and in the earlier one, the run
    ends by [process.exit(0)] exactly when the answer differs from [y]; so it
    does for [Y], [yes], and [y] with a blank before or after it. *)
Theorem affirmative_token_is_y (env : Env) (sched : list settlement)
    (stdout content : string) :
  listExtensions env = Resolved stdout "" →
  extensionsFile env = Some content →
  transformExtensionsStringToArray content ≠ [] →
  plan (transformExtensionsStringToArray stdout)
       (transformExtensionsStringToArray content) ≠ ([], []) →
  (status (installExtensions env sched) = Exited 0 ↔ answer env ≠ "y")
  ∧ (status (IndexJs.installExtensions env sched) = Exited 0 ↔ answer env ≠ "y")
  ∧ (answer env ∈ ["Y"; "yes"; "Yes"; " y"; "y "; " y "; ""] →
     status (installExtensions env sched) = Exited 0
     ∧ last (trace (installExtensions env sched)) = Some (ProcessExit 0)).
Proof.
  intros Hlist Hfile Hsaved Hplan.
  assert (status (installExtensions env sched) = Exited 0 ↔ answer env ≠ "y") as Hiff.
  { split.
    - intros Hexit Hy. unfold installExtensions in Hexit.
      apply run_exited in Hexit. revert Hexit.
      rewrite (launch_prompted env stdout content Hlist Hfile Hsaved Hplan).
      unfold onAnswer. rewrite Hy. cbn [String.eqb Ascii.eqb Bool.eqb negb].
      unfold startInstalling, startUninstalling.
      repeat match goal with
      | |- context [match ?d with _ => _ end] => destruct d
      end; fields; discriminate.
    - intros Hne.
      by rewrite (declined_run env sched stdout content
                    Hlist Hfile Hsaved Hplan Hne). }
  split; [exact Hiff |]. split; [exact Hiff |].
  intros Hin.
  assert (answer env ≠ "y") as Hne.
  { intros Hy. rewrite Hy in Hin.
    repeat (apply elem_of_cons in Hin as [Hin|Hin]; [discriminate Hin |]).
    by apply elem_of_nil in Hin. }
  by rewrite (declined_run env sched stdout content
                Hlist Hfile Hsaved Hplan Hne).
Qed.

Lemma affirmative_token_is_y_witness :
  status (installExtensions (env_answering "Y") []) = Exited 0
  ∧ status (installExtensions (env_answering "y") []) ≠ Exited 0.
Proof.
  split.
  - destruct (affirmative_token_is_y (env_answering "Y") []
                (lines ["a"; "b"]) (lines ["b"; "c"])
                eq_refl eq_refl ltac:(discriminate) ltac:(discriminate))
      as [Hiff _].
    apply Hiff. discriminate.
  - destruct (affirmative_token_is_y (env_answering "y") []
                (lines ["a"; "b"]) (lines ["b"; "c"])
                eq_refl eq_refl ltac:(discriminate) ltac:(discriminate))
      as [Hiff _].
    intros Hexit. by apply Hiff in Hexit.
Defined.

(** C6. In every run, each uninstall is started only after all the installs
    of [extensionsToInstall] have been started and have ended: in the trace
    before the start of an uninstall, as many installs have ended as were
    started, namely one per entry of [extensionsToInstall]. *)
Theorem uninstalls_wait_for_installs (env : Env) (sched : list settlement)
    (pre post : list event) (x : string) :
  let st := installExtensions env sched in
  trace st = pre ++ Exec Uninstall x :: post →
  started Install pre = length (extensionsToInstall st)
  ∧ settled Install pre = length (extensionsToInstall st).
Proof.
  intros st Hsplit.
  destruct (chain_inv_installExtensions env sched) as [Hb _].
  by apply (Hb pre x post).
Qed.

Lemma uninstalls_wait_for_installs_witness :
  started Install
    [ConsoleLog MsgInstallingExtensions; ConsoleLog MsgRule; CreateInterface;
     ExecList; ReadExtensionsFile; Question ["c"] ["a"]; RlClose;
     ConsoleLog (MsgInstalling "c"); Exec Install "c";
     Settled Install "c" true; ConsoleLog (MsgUninstalling "a")] = 1
  ∧ settled Install
    [ConsoleLog MsgInstallingExtensions; ConsoleLog MsgRule; CreateInterface;
     ExecList; ReadExtensionsFile; Question ["c"] ["a"]; RlClose;
     ConsoleLog (MsgInstalling "c"); Exec Install "c";
     Settled Install "c" true; ConsoleLog (MsgUninstalling "a")] = 1.
Proof.
  apply (uninstalls_wait_for_installs env_mixed [Settle 0 true] _ [] "a").
  reflexivity.
Defined.

(** C2, as amended. In a confirmed run, when some install ends in failure,
    every identifier of [extensionsToInstall] has had its install started,
    but no uninstall is started and the success message is not printed: the
    rejection of [Promise.all] goes to the chain's [.catch(console.error)],
    which logs the error. *)
Theorem install_failure_stops_chain (env : Env) (sched : list settlement)
    (stdout content x : string) :
  listExtensions env = Resolved stdout "" →
  extensionsFile env = Some content →
  transformExtensionsStringToArray content ≠ [] →
  plan (transformExtensionsStringToArray stdout)
       (transformExtensionsStringToArray content) ≠ ([], []) →
  answer env = "y" →
  let st := installExtensions env sched in
  Settled Install x false ∈ trace st →
  (∀ y, y ∈ extensionsToInstall st → Exec Install y ∈ trace st)
  ∧ (∀ y, Exec Uninstall y ∉ trace st)
  ∧ (ConsoleLog MsgSuccess ∉ trace st)
  ∧ (status st ≠ Completed)
  ∧ (∃ e, status st = Failed e ∧ ConsoleError e ∈ trace st).
Proof.
  intros Hlist Hfile Hsaved Hplan Hy st Hfail.
  split.
  - intros y Hin. subst st. unfold installExtensions in *.
    destruct (run_plan (launch env) sched) as [HI _]. rewrite HI in Hin.
    eapply elem_of_prefix; [| apply run_prefix].
    revert Hin.
    rewrite (launch_prompted env stdout content Hlist Hfile Hsaved Hplan).
    unfold onAnswer. rewrite Hy. cbn [String.eqb Ascii.eqb Bool.eqb negb].
    apply startInstalling_attempts.
  - destruct (chain_inv_installExtensions env sched) as [_ Hph].
    fold st in Hph.
    assert (∀ tr, never is_failed_install tr → Settled Install x false ∈ tr → False)
      as Hno.
    { intros tr Hn Hin.
      by apply (never_not_elem_of is_failed_install tr
                  (Settled Install x false) Hn eq_refl). }
    destruct (status st) eqn:Est.
    + destruct Hph as [_ Hq]. exfalso. eapply Hno; [| exact Hfail].
      by apply quiet_never_failed.
    + destruct Hph as [_ Hq]. exfalso. eapply Hno; [| exact Hfail].
      by apply quiet_never_failed.
    + destruct Hph as (_ & _ & _ & _ & _ & Hf). exfalso. by eapply Hno.
    + destruct Hph as (_ & _ & Hf). exfalso. by eapply Hno.
    + destruct Hph as [_ Hq]. exfalso. eapply Hno; [| exact Hfail].
      by apply quiet_never_failed.
    + destruct Hph as (Herr & Hok & [Hu|[_ Hf]]); [| exfalso; by eapply Hno].
      split; [intros y; by apply (never_not_elem_of (is_exec Uninstall) _
                                    (Exec Uninstall y) Hu) |].
      split; [by apply (never_not_elem_of is_success _
                          (ConsoleLog MsgSuccess) Hok) |].
      split; [discriminate | eauto].
    + destruct Hph as [_ Hf]. exfalso. by eapply Hno.
Qed.

Lemma install_failure_stops_chain_witness :
  let st := installExtensions env_two_installs [Settle 0 false] in
  Exec Install "d" ∈ trace st ∧ Exec Uninstall "a" ∉ trace st.
Proof.
  intros st.
  assert (Settled Install "c" false ∈ trace st) as Hfail.
  { vm_compute. do 11 right. left. }
  destruct (install_failure_stops_chain env_two_installs [Settle 0 false]
              (lines ["a"; "b"]) (lines ["b"; "c"; "d"]) "c"
              eq_refl eq_refl ltac:(discriminate) ltac:(discriminate) eq_refl Hfail)
    as (Hall & Hnone & _).
  split; [| apply Hnone]. apply Hall. vm_compute. right. left.
Defined.

(** C2 as stated fails: the install of [c] fails, and then the uninstall of
    [a] is never started and the run does not complete, although the install
    of [d] was started. *)
Lemma partial_failure_counterexample :
  let st := installExtensions env_two_installs [Settle 0 false; Settle 0 true] in
  extensionsToInstall st = ["c"; "d"]
  ∧ extensionsToUninstall st = ["a"]
  ∧ answer env_two_installs = "y"
  ∧ Settled Install "c" false ∈ trace st
  ∧ running st = []
  ∧ ¬ (Exec Uninstall "a" ∈ trace st ∧ status st = Completed)
  ∧ (Exec Uninstall "a" ∉ trace st)
  ∧ (ConsoleLog MsgSuccess ∉ trace st)
  ∧ status st = Failed (ErrCommand Install "c").
Proof.
  vm_compute. repeat split; try reflexivity.
  - do 11 right. left.
  - intros [_ H]. discriminate H.
  - absent.
  - absent.
Qed.

End Command.

(** ** More on the helpers *)

Section TransformFacts.

Implicit Types (s a b : string) (l : list string).

Lemma split_lines_cons s : ∃ piece pieces, split_lines s = piece :: pieces.
Proof.
  induction s as [|c rest IH]; simpl; [eauto |].
  destruct (Ascii.eqb c "010"); [eauto |].
  destruct IH as (piece & pieces & ->). eauto.
Qed.

Lemma split_lines_append a b :
  split_lines (a +:+ String "010" b) = split_lines a ++ split_lines b.
Proof.
  induction a as [|c rest IH]; simpl; [done |].
  destruct (Ascii.eqb c "010"); [by rewrite IH |].
  rewrite IH. by destruct (split_lines_cons rest) as (piece & pieces & ->).
Qed.

Lemma split_lines_pieces s : Forall (λ p, contains_LF p = false) (split_lines s).
Proof.
  induction s as [|c rest IH]; simpl; [by repeat constructor |].
  destruct (Ascii.eqb c "010") eqn:Ec; [by constructor |].
  destruct (split_lines rest) as [|piece pieces]; [by repeat constructor; simpl; rewrite Ec |].
  inversion IH; subst. constructor; [simpl; by rewrite Ec | done].
Qed.

Lemma split_lines_entry s : contains_LF s = false → split_lines s = [s].
Proof.
  induction s as [|c rest IH]; simpl; [done |].
  destruct (Ascii.eqb c "010"); [done |]. simpl. intros H. by rewrite IH.
Qed.

Lemma transform_entry s : is_entry s → transformExtensionsStringToArray s = [s].
Proof.
  intros [Ht Hn]. unfold transformExtensionsStringToArray.
  rewrite split_lines_entry by done. simpl. by rewrite Ht.
Qed.

Lemma transform_append a b :
  transformExtensionsStringToArray (a +:+ String "010" b)
  = transformExtensionsStringToArray a ++ transformExtensionsStringToArray b.
Proof.
  unfold transformExtensionsStringToArray.
  by rewrite split_lines_append, List.filter_app.
Qed.

(** X1. Every entry [transformExtensionsStringToArray] returns is a
    non-empty string without line feed, whatever the text. *)
Theorem transform_gives_entries s :
  Forall is_entry (transformExtensionsStringToArray s).
Proof.
  unfold transformExtensionsStringToArray.
  pose proof (split_lines_pieces s) as H.
  induction H as [|p ps Hp _ IH]; simpl; [constructor |].
  destruct (truthy p) eqn:Et; [| done]. by constructor.
Qed.

(** X2. Splitting distributes over a line feed: the entries of [a], a line
    feed, and [b] are the entries of [a] followed by those of [b]; so blank
    lines and a missing or repeated final line feed change nothing. *)
Theorem transform_distributes a b :
  transformExtensionsStringToArray (a +:+ LF +:+ b)
  = transformExtensionsStringToArray a ++ transformExtensionsStringToArray b
  ∧ transformExtensionsStringToArray (a +:+ LF) = transformExtensionsStringToArray a
  ∧ transformExtensionsStringToArray (LF +:+ a) = transformExtensionsStringToArray a
  ∧ transformExtensionsStringToArray (a +:+ LF +:+ LF +:+ b)
    = transformExtensionsStringToArray (a +:+ LF +:+ b).
Proof.
  assert (∀ x y, transformExtensionsStringToArray (x +:+ LF +:+ y)
                 = transformExtensionsStringToArray x
                   ++ transformExtensionsStringToArray y) as Happ.
  { intros x y. apply transform_append. }
  split; [apply Happ |]. split; [| split].
  - replace (a +:+ LF) with (a +:+ LF +:+ "") by done.
    rewrite Happ. apply app_nil_r.
  - change (LF +:+ a) with ("" +:+ LF +:+ a). by rewrite Happ.
  - rewrite !Happ. change (LF +:+ b) with ("" +:+ LF +:+ b). by rewrite Happ.
Qed.

(** X3. Reading back what was printed: a list of entries, printed one per
    line, splits into the same list. *)
Theorem transform_lines_roundtrip l :
  Forall is_entry l → transformExtensionsStringToArray (lines l) = l.
Proof.
  induction 1 as [|x l Hx _ IH]; [done |].
  simpl. change (x +:+ LF +:+ lines l) with (x +:+ String "010" (lines l)).
  by rewrite transform_append, transform_entry, IH.
Qed.

Lemma transform_lines_roundtrip_witness :
  transformExtensionsStringToArray (lines ["ms-python.python"; "b"])
  = ["ms-python.python"; "b"].
Proof.
  apply transform_lines_roundtrip. by repeat constructor.
Defined.

(** X4. The text has no entry exactly when it consists of line feeds only
    (the empty text included): this is when [installExtensions] reports the
    [extensions] file as empty. A carriage return already counts as an
    entry. *)
Theorem transform_empty_iff s :
  transformExtensionsStringToArray s = [] ↔ only_LF s = true.
Proof.
  unfold transformExtensionsStringToArray.
  induction s as [|c rest IH]; simpl; [done |].
  destruct (Ascii.eqb c "010"); simpl; [exact IH |].
  destruct (split_lines_cons rest) as (piece & pieces & ->). simpl.
  split; discriminate.
Qed.

End TransformFacts.

Section DiffMore.

Implicit Types base values : list string.

(** X5. With nothing in [base] every value is kept, duplicates included;
    a list against itself, and an empty list of values, give nothing. *)
Theorem diff_edge_cases values base :
  diff [] values = values ∧ diff values values = [] ∧ diff base [] = [].
Proof.
  split; [| split; [| done]].
  - rewrite diff_filter. induction values as [|v vs IH]; [done |].
    rewrite filter_cons_True; [by rewrite IH | by inversion 1].
  - by apply diff_nil_iff.
Qed.

(** X6. Removing the members of [b1 ++ b2] is removing those of [b2] and
    then those of [b1]; removing the members of [base] twice is removing
    them once. *)
Theorem diff_composes (b1 b2 base values : list string) :
  diff (b1 ++ b2) values = diff b1 (diff b2 values)
  ∧ diff base (diff base values) = diff base values.
Proof.
  split.
  - rewrite !diff_filter. induction values as [|v vs IH]; [done |].
    destruct (decide (v ∈ b2)) as [H2|H2].
    + rewrite (filter_cons_False (λ v, v ∉ b2)) by (by intros []).
      rewrite filter_cons_False; [done |].
      intros Hn. apply Hn, elem_of_app. by right.
    + rewrite (filter_cons_True (λ v, v ∉ b2)) by done.
      destruct (decide (v ∈ b1)) as [H1|H1].
      * rewrite (filter_cons_False (λ v, v ∉ b1)) by (by intros []).
        rewrite filter_cons_False; [done |].
        intros Hn. apply Hn, elem_of_app. by left.
      * rewrite (filter_cons_True (λ v, v ∉ b1)) by done.
        rewrite filter_cons_True; [by rewrite IH |].
        rewrite elem_of_app. tauto.
  - rewrite !diff_filter. induction values as [|v vs IH]; [done |].
    destruct (decide (v ∈ base)) as [H|H].
    + by rewrite (filter_cons_False (λ v, v ∉ base)) by (by intros []).
    + rewrite !(filter_cons_True (λ v, v ∉ base)) by done. by rewrite IH.
Qed.

(** X7. The plan is empty exactly when the installed list and the saved
    list name the same set of identifiers, in whatever order and with
    whatever repetitions. *)
Theorem plan_empty_iff (installed saved : list string) :
  plan installed saved = ([], []) ↔ ids installed = ids saved.
Proof.
  unfold plan. split.
  - intros H. injection H as HI HU.
    rewrite diff_nil_iff in HI, HU.
    apply set_eq. intros x. unfold ids. rewrite !elem_of_list_to_set.
    split; auto.
  - intros H.
    assert (∀ x, x ∈ installed ↔ x ∈ saved) as Heq.
    { intros x. rewrite <- (elem_of_list_to_set (C:=gset string) x installed).
      rewrite <- (elem_of_list_to_set (C:=gset string) x saved).
      fold (ids installed) (ids saved). by rewrite H. }
    f_equal; apply diff_nil_iff; intros x Hx; by apply Heq.
Qed.

End DiffMore.

(** ** More on the command *)

Section CommandMore.

Ltac fields :=
  cbn [set_status spawn emit catch exit complete assign planned
       trace running status extensionsToInstall extensionsToUninstall].

Ltac absent :=
  let H := fresh "Hin" in
  intros H;
  repeat (apply elem_of_cons in H as [H|H]; [discriminate H |]);
  by apply elem_of_nil in H.

Ltac solve_never :=
  repeat match goal with
  | H : never ?p ?tr |- never ?p ?tr => exact H
  | |- never _ (_ ++ _) => apply never_app; split
  | |- never _ (concat (map (runExtensionCommand _) [])) => constructor
  | |- never _ (concat (map (runExtensionCommand _) _)) =>
      apply spawn_never; intros; reflexivity
  | |- never _ [] => constructor
  | |- never _ (_ :: _) => constructor; [reflexivity |]
  | |- Forall _ [] => constructor
  | |- Forall _ (_ :: _) => constructor; [reflexivity |]
  | H : never is_chain_event ?tr |- never _ ?tr =>
      revert H; apply never_weaken;
      let ev := fresh "ev" in intros ev; destruct ev as [[]| | | | | | | | |]; done
  end.

(** The first six events of a run that reaches the prompt. *)
Lemma launch_confirmed env stdout content :
  listExtensions env = Resolved stdout "" →
  extensionsFile env = Some content →
  transformExtensionsStringToArray content ≠ [] →
  plan (transformExtensionsStringToArray stdout)
       (transformExtensionsStringToArray content) ≠ ([], []) →
  answer env = "y" →
  launch env =
    startInstalling
      (mkState (diff (transformExtensionsStringToArray stdout)
                     (transformExtensionsStringToArray content))
               (diff (transformExtensionsStringToArray content)
                     (transformExtensionsStringToArray stdout))
               [] AwaitingAnswer
               [ConsoleLog MsgInstallingExtensions; ConsoleLog MsgRule;
                CreateInterface; ExecList; ReadExtensionsFile;
                Question (diff (transformExtensionsStringToArray stdout)
                               (transformExtensionsStringToArray content))
                         (diff (transformExtensionsStringToArray content)
                               (transformExtensionsStringToArray stdout));
                RlClose]).
Proof.
  intros Hlist Hfile Hsaved Hplan Hy.
  rewrite (launch_prompted env stdout content Hlist Hfile Hsaved Hplan).
  unfold onAnswer. by rewrite Hy.
Qed.

(** *** Commands concern the plan only *)

Lemma scope_spawn st op :
  chain_scope st → chain_scope (spawn op (planned st op) st).
Proof.
  intros [Ht Hr]. split; fields.
  - apply Forall_app. split; [done |].
    assert (∀ l, Forall (λ y, y ∈ planned st op) l →
                 Forall (in_scope st) (concat (map (runExtensionCommand op) l))) as H.
    { induction 1 as [|y l Hy _ IH]; [constructor |].
      simpl. constructor; [by destruct op |]. by constructor. }
    apply H. by apply Forall_forall.
  - apply Forall_app. split; [done |].
    assert (∀ l, Forall (λ y, y ∈ planned st op) l →
                 Forall (λ c, c.2 ∈ planned st c.1) (map (pair op) l)) as H.
    { induction 1; by constructor. }
    apply H. by apply Forall_forall.
Qed.

Lemma scope_events st evs s :
  chain_scope st → Forall (in_scope st) evs →
  chain_scope (set_status s (emit evs st)).
Proof.
  intros [Ht Hr] Hevs. split; fields; [| done].
  apply Forall_app. by split.
Qed.

Lemma scope_startUninstalling st :
  chain_scope st → chain_scope (startUninstalling st).
Proof.
  intros Hsc. unfold startUninstalling.
  pose proof (scope_spawn st Uninstall Hsc) as Hsp. simpl planned in Hsp.
  destruct (extensionsToUninstall st); simpl in Hsp.
  - apply (scope_events _ [ConsoleLog MsgSuccess] Completed Hsp).
    by repeat constructor.
  - destruct Hsp as [Ht Hr]. by split.
Qed.

Lemma scope_startInstalling st :
  chain_scope st → chain_scope (startInstalling st).
Proof.
  intros Hsc. unfold startInstalling.
  pose proof (scope_spawn st Install Hsc) as Hsp. simpl planned in Hsp.
  destruct (extensionsToInstall st) eqn:EI; simpl in Hsp.
  - by apply scope_startUninstalling in Hsp.
  - destruct Hsp as [Ht Hr]. by split.
Qed.

Lemma scope_settle st s : chain_scope st → chain_scope (settle st s).
Proof.
  intros Hsc. destruct s as [k ok]. unfold settle.
  destruct (running st !! k) as [[op x]|] eqn:Hk; [| done].
  assert (chain_scope
            (mkState (extensionsToInstall st) (extensionsToUninstall st)
               (delete k (running st)) (status st)
               (trace st ++ [Settled op x ok]))) as Hst.
  { destruct Hsc as [Ht Hr]. split; fields.
    - apply Forall_app. split; [done |]. constructor; [| constructor].
      by apply (Forall_lookup_1 _ _ _ _ Hr Hk).
    - by apply Forall_delete. }
  destruct (status st), op; try done; destruct ok;
    try (by apply (scope_events _ [ConsoleError _] (Failed _) Hst);
            repeat constructor).
  - destruct (pending Install _); [by apply scope_startUninstalling | done].
  - destruct (pending Uninstall _); [| done].
    apply (scope_events _ [ConsoleLog MsgSuccess] Completed Hst).
    by repeat constructor.
Qed.

Lemma scope_launch env : chain_scope (launch env).
Proof.
  unfold launch, readInstalledExtensions.
  assert (∀ st, running st = [] → Forall (in_scope st) (trace st) →
                chain_scope st) as Hidle.
  { intros st Hr Ht. split; [done |]. rewrite Hr. constructor. }
  destruct (listExtensions env) as [stdout stderr|].
  - destruct (truthy stderr).
    + apply Hidle; [done |]. by repeat constructor.
    + unfold computePlan. destruct (extensionsFile env) as [content|].
      * destruct (length (transformExtensionsStringToArray content) =? 0)%nat.
        -- apply Hidle; [done |]. by repeat constructor.
        -- fields.
           destruct ((length (diff (transformExtensionsStringToArray content)
                                   (transformExtensionsStringToArray stdout)) =? 0)%nat
                     && (length (diff (transformExtensionsStringToArray stdout)
                                      (transformExtensionsStringToArray content)) =? 0)%nat).
           ++ apply Hidle; [done |]. by repeat constructor.
           ++ fields. unfold onAnswer.
              destruct (negb (String.eqb (answer env) "y")).
              ** apply Hidle; [done |]. by repeat constructor.
              ** apply scope_startInstalling, Hidle; [done |].
                 by repeat constructor.
      * apply Hidle; [done |]. by repeat constructor.
  - apply Hidle; [done |]. by repeat constructor.
Qed.

Lemma scope_installExtensions env sched : chain_scope (installExtensions env sched).
Proof.
  unfold installExtensions. generalize (scope_launch env).
  generalize (launch env) as st. induction sched as [|s sched IH]; intros st Hst; [done |].
  simpl. by apply IH, scope_settle.
Qed.

(** What the two variables hold at the end of any run. *)
Lemma final_plan env sched :
  (extensionsToInstall (installExtensions env sched) = []
   ∧ extensionsToUninstall (installExtensions env sched) = [])
  ∨ ∃ stdout content,
      listExtensions env = Resolved stdout ""
      ∧ extensionsFile env = Some content
      ∧ extensionsToInstall (installExtensions env sched)
        = diff (transformExtensionsStringToArray stdout)
               (transformExtensionsStringToArray content)
      ∧ extensionsToUninstall (installExtensions env sched)
        = diff (transformExtensionsStringToArray content)
               (transformExtensionsStringToArray stdout).
Proof.
  unfold installExtensions.
  destruct (run_plan (launch env) sched) as [-> ->].
  unfold launch, readInstalledExtensions.
  destruct (listExtensions env) as [stdout stderr|]; [| by left].
  destruct stderr as [|c stderr]; [| by left]. simpl.
  unfold computePlan. destruct (extensionsFile env) as [content|]; [| by left].
  destruct (length (transformExtensionsStringToArray content) =? 0)%nat; [by left |].
  right. exists stdout, content. split; [done |]. split; [done |]. fields.
  destruct ((length (diff (transformExtensionsStringToArray content)
                          (transformExtensionsStringToArray stdout)) =? 0)%nat
            && (length (diff (transformExtensionsStringToArray stdout)
                             (transformExtensionsStringToArray content)) =? 0)%nat);
    [done |].
  fields. unfold onAnswer. destruct (negb (String.eqb (answer env) "y")); [done |].
  unfold startInstalling, startUninstalling.
  repeat match goal with
  | |- context [match ?d with _ => _ end] => destruct d
  end; done.
Qed.

(** X8. In every run, an install is started only for an identifier that is
    in the saved list and not in the installed list, and an uninstall only
    for one that is in the installed list and not in the saved list: the
    command never removes an extension the [extensions] file names, and
    never installs one the machine already has. *)
Theorem commands_stay_within_plan (env : Env) (sched : list settlement) (y : string) :
  let st := installExtensions env sched in
  (Exec Install y ∈ trace st →
     ∃ stdout content,
       listExtensions env = Resolved stdout ""
       ∧ extensionsFile env = Some content
       ∧ y ∈ transformExtensionsStringToArray content
       ∧ y ∉ transformExtensionsStringToArray stdout)
  ∧ (Exec Uninstall y ∈ trace st →
     ∃ stdout content,
       listExtensions env = Resolved stdout ""
       ∧ extensionsFile env = Some content
       ∧ y ∈ transformExtensionsStringToArray stdout
       ∧ y ∉ transformExtensionsStringToArray content).
Proof.
  intros st. destruct (scope_installExtensions env sched) as [Ht _].
  fold st in Ht. rewrite Forall_forall in Ht.
  split; intros Hin; apply Ht in Hin; simpl in Hin;
    destruct (final_plan env sched) as [[HI HU]|(stdout & content & Hl & Hf & HI & HU)];
    fold st in HI, HU.
  - rewrite HI in Hin. inversion Hin.
  - rewrite HI in Hin. apply elem_of_diff in Hin. eauto 6.
  - rewrite HU in Hin. inversion Hin.
  - rewrite HU in Hin. apply elem_of_diff in Hin. eauto 6.
Qed.

Lemma commands_stay_within_plan_witness :
  ∃ stdout content,
    listExtensions env_mixed = Resolved stdout ""
    ∧ extensionsFile env_mixed = Some content
    ∧ "c" ∈ transformExtensionsStringToArray content
    ∧ "c" ∉ transformExtensionsStringToArray stdout.
Proof.
  apply (commands_stay_within_plan env_mixed [] "c").
  vm_compute. do 8 right. left.
Defined.

(** *** Nothing starts before the answer *)

Lemma split_after_prefix (base rest pre post : list event) (e : event) :
  base ++ rest = pre ++ e :: post → e ∉ base → ∃ k, pre = base ++ k.
Proof.
  intros Heq Hn. apply app_eq_inv in Heq as [(k & Hk & Hrest)|(k & -> & _)]; [| eauto].
  destruct k as [|e' k].
  - exists []. by rewrite Hk, !app_nil_r.
  - injection Hrest as <- _. exfalso. apply Hn. rewrite Hk.
    apply elem_of_app. right. left.
Qed.

(** Either the chain ends before the answer is accepted, with nothing
    started, or the answer was [y] and the trace begins with the prompt. *)
Lemma launch_cases env :
  (running (launch env) = [] ∧ ∀ op x, Exec op x ∉ trace (launch env))
  ∨ (answer env = "y"
     ∧ [ConsoleLog MsgInstallingExtensions; ConsoleLog MsgRule;
        CreateInterface; ExecList; ReadExtensionsFile;
        Question (extensionsToInstall (launch env))
                 (extensionsToUninstall (launch env)); RlClose]
       `prefix_of` trace (launch env)).
Proof.
  unfold launch, readInstalledExtensions.
  destruct (listExtensions env) as [stdout stderr|].
  - destruct (truthy stderr); [left; split; [done | intros; absent] |].
    unfold computePlan. destruct (extensionsFile env) as [content|];
      [| left; split; [done | intros; absent]].
    destruct (length (transformExtensionsStringToArray content) =? 0)%nat;
      [left; split; [done | intros; absent] |].
    fields.
    destruct ((length (diff (transformExtensionsStringToArray content)
                            (transformExtensionsStringToArray stdout)) =? 0)%nat
              && (length (diff (transformExtensionsStringToArray stdout)
                               (transformExtensionsStringToArray content)) =? 0)%nat);
      [left; split; [done | intros; absent] |].
    fields. unfold onAnswer.
    destruct (String.eqb_spec (answer env) "y") as [Hy|Hy]; cbn [negb];
      [| left; split; [done | intros; absent]].
    right. split; [done |].
    unfold startInstalling, startUninstalling.
    repeat match goal with
    | |- context [match ?d with _ => _ end] => destruct d
    end; fields; unfold initial; fields; rewrite <- ?app_assoc; by eexists.
  - left. split; [done | intros; absent].
Qed.

(** X9. In every run, before any install or uninstall is started the plan
    has been shown in the prompt, the prompt has been closed, and the answer
    was [y]. *)
Theorem nothing_starts_unconfirmed (env : Env) (sched : list settlement)
    (pre post : list event) (op : operation) (x : string) :
  let st := installExtensions env sched in
  trace st = pre ++ Exec op x :: post →
  answer env = "y"
  ∧ Question (extensionsToInstall st) (extensionsToUninstall st) ∈ pre
  ∧ RlClose ∈ pre.
Proof.
  intros st Hsplit.
  destruct (run_plan (launch env) sched) as [HI HU].
  fold (installExtensions env sched) in HI, HU. fold st in HI, HU.
  destruct (launch_cases env) as [[Hrun Hnone]|[Hy Hpre]].
  - exfalso. apply (Hnone op x).
    subst st. unfold installExtensions in Hsplit. rewrite run_idle in Hsplit by done.
    rewrite Hsplit. apply elem_of_app. right. left.
  - split; [done |].
    assert ([ConsoleLog MsgInstallingExtensions; ConsoleLog MsgRule;
             CreateInterface; ExecList; ReadExtensionsFile;
             Question (extensionsToInstall st) (extensionsToUninstall st); RlClose]
            `prefix_of` trace st) as [rest Hrest].
    { rewrite HI, HU. etrans; [exact Hpre |]. apply run_prefix. }
    rewrite Hrest in Hsplit.
    apply split_after_prefix in Hsplit as [k ->]; [| absent].
    split; apply elem_of_app; left.
    + do 5 right. left.
    + do 6 right. left.
Qed.

Lemma nothing_starts_unconfirmed_witness :
  answer env_mixed = "y"
  ∧ Question ["c"] ["a"]
    ∈ [ConsoleLog MsgInstallingExtensions; ConsoleLog MsgRule; CreateInterface;
       ExecList; ReadExtensionsFile; Question ["c"] ["a"]; RlClose;
       ConsoleLog (MsgInstalling "c")]
  ∧ RlClose
    ∈ [ConsoleLog MsgInstallingExtensions; ConsoleLog MsgRule; CreateInterface;
       ExecList; ReadExtensionsFile; Question ["c"] ["a"]; RlClose;
       ConsoleLog (MsgInstalling "c")].
Proof.
  apply (nothing_starts_unconfirmed env_mixed [] _ [] Install "c").
  reflexivity.
Defined.

(** *** The list command *)

(** X10. When [code --list-extensions] writes anything to its error stream,
    even with a usable list on its output, the run logs it and exits with
    code 1: the [extensions] file is not read, there is no prompt and nothing
    is started, whatever the file and the answer are. *)
Theorem list_stderr_aborts (env : Env) (sched : list settlement)
    (stdout stderr : string) :
  listExtensions env = Resolved stdout stderr → stderr ≠ "" →
  installExtensions env sched =
    mkState [] [] [] (Exited 1)
      [ConsoleLog MsgInstallingExtensions; ConsoleLog MsgRule; CreateInterface;
       ExecList; ConsoleLog (MsgUnableToGet stderr); ProcessExit 1].
Proof.
  intros Hlist Hne. unfold installExtensions.
  assert (launch env =
            mkState [] [] [] (Exited 1)
              [ConsoleLog MsgInstallingExtensions; ConsoleLog MsgRule;
               CreateInterface; ExecList; ConsoleLog (MsgUnableToGet stderr);
               ProcessExit 1]) as ->.
  { unfold launch, readInstalledExtensions. rewrite Hlist.
    by destruct stderr. }
  by apply run_idle.
Qed.

Lemma list_stderr_aborts_witness :
  status (installExtensions
            (mkEnv (Resolved (lines ["a"]) "warning") (Some (lines ["b"])) "y")
            [Settle 0 true])
  = Exited 1.
Proof.
  exact (f_equal status
           (list_stderr_aborts
              (mkEnv (Resolved (lines ["a"]) "warning") (Some (lines ["b"])) "y")
              [Settle 0 true] (lines ["a"]) "warning" eq_refl
              ltac:(discriminate))).
Defined.

(** X11. When [code --list-extensions] fails, [readInstalledExtensions]
    logs the error and hands on [undefined]; splitting it throws, which the
    final handler logs too. The run then stops without [process.exit]: the
    [extensions] file is not read, there is no prompt and nothing is
    started. *)
Theorem list_failure_is_logged_twice (env : Env) (sched : list settlement) :
  listExtensions env = Rejected →
  installExtensions env sched =
    mkState [] [] [] (Failed ErrTypeError)
      [ConsoleLog MsgInstallingExtensions; ConsoleLog MsgRule; CreateInterface;
       ExecList; ConsoleError ErrListCommand; ConsoleError ErrTypeError].
Proof.
  intros Hlist. unfold installExtensions.
  assert (launch env =
            mkState [] [] [] (Failed ErrTypeError)
              [ConsoleLog MsgInstallingExtensions; ConsoleLog MsgRule;
               CreateInterface; ExecList; ConsoleError ErrListCommand;
               ConsoleError ErrTypeError]) as ->.
  { unfold launch, readInstalledExtensions. by rewrite Hlist. }
  by apply run_idle.
Qed.

Lemma list_failure_is_logged_twice_witness :
  status (installExtensions (mkEnv Rejected (Some (lines ["b"])) "y") [Settle 0 true])
  = Failed ErrTypeError.
Proof.
  exact (f_equal status
           (list_failure_is_logged_twice
              (mkEnv Rejected (Some (lines ["b"])) "y") [Settle 0 true] eq_refl)).
Defined.

(** *** How far the commands get *)

Lemma started_snoc op tr ev :
  started op (tr ++ [ev]) = started op tr + (if is_exec op ev then 1 else 0).
Proof. rewrite started_app. unfold started at 2. simpl. by destruct (is_exec op ev). Qed.

Lemma settled_snoc op tr ev :
  settled op (tr ++ [ev]) = settled op tr + (if is_settled op ev then 1 else 0).
Proof. rewrite settled_app. unfold settled at 2. simpl. by destruct (is_settled op ev). Qed.

Lemma never_started op tr : never (is_exec op) tr → started op tr = 0.
Proof. intros H. unfold started. by rewrite never_count. Qed.

Lemma never_settled op tr : never (is_settled op) tr → settled op tr = 0.
Proof. intros H. unfold settled. by rewrite never_count. Qed.

Lemma spawn_counts op l :
  started Install (concat (map (runExtensionCommand Uninstall) l)) = 0
  ∧ settled op (concat (map (runExtensionCommand Uninstall) l)) = 0
  ∧ started Uninstall (concat (map (runExtensionCommand Uninstall) l)) = length l.
Proof.
  split; [apply never_started; by apply spawn_never |].
  split; [apply spawn_settled | apply spawn_started].
Qed.

Lemma facts_startUninstalling st :
  running st = [] →
  started Install (trace st) = length (extensionsToInstall st) →
  settled Install (trace st) = length (extensionsToInstall st) →
  never (is_exec Uninstall) (trace st) →
  never (is_settled Uninstall) (trace st) →
  never is_error (trace st) →
  never is_failure (trace st) →
  chain_facts (startUninstalling st).
Proof.
  intros Hrun HsI HdI HeU HdU Herr Hfail. unfold startUninstalling.
  apply never_started in HeU. apply never_settled in HdU.
  destruct (extensionsToUninstall st) as [|u U] eqn:EU.
  - split; fields. rewrite EU, Hrun. simpl concat. rewrite app_nil_r.
    rewrite !started_snoc, !settled_snoc. simpl. rewrite !app_nil_r.
    split; [done |]. split; [lia |]. split; [lia |]. split; [lia |].
    split; [lia |]. split; [solve_never |]. split; [solve_never |].
    by rewrite last_snoc.
  - split; fields. rewrite EU, Hrun.
    destruct (spawn_counts Install (u :: U)) as (H1 & H2 & H3).
    destruct (spawn_counts Uninstall (u :: U)) as (_ & H4 & _).
    rewrite !started_app, !settled_app, H1, H2, H3, H4.
    split; [done |]. split; [lia |]. split; [lia |]. split; [lia |].
    split; [rewrite app_nil_l, length_map; lia |].
    split; solve_never.
Qed.

Lemma facts_startInstalling st :
  running st = [] → never is_chain_event (trace st) → never is_error (trace st) →
  chain_facts (startInstalling st).
Proof.
  intros Hrun Hq Herr. unfold startInstalling.
  assert (never is_failure (trace st)) as Hfail.
  { revert Hq. apply never_weaken. by intros []. }
  destruct (extensionsToInstall st) as [|i l] eqn:EI.
  - apply facts_startUninstalling; fields; rewrite ?EI, ?Hrun; simpl concat;
      rewrite ?app_nil_r; try done.
    + by apply quiet_started.
    + by apply quiet_settled.
    + solve_never.
    + solve_never.
  - split; fields. rewrite Hrun.
    split; [done |]. split; [| split]; solve_never.
Qed.

Lemma chain_facts_settle st s :
  chain_inv st → chain_facts st → chain_facts (settle st s).
Proof.
  intros [Hb Hinv] [Hf]. destruct s as [k ok]. unfold settle.
  destruct (running st !! k) as [[op x]|] eqn:Hk; [| by split].
  assert (is_Some (running st !! k)) as Hsome by eauto.
  pose proof (length_delete _ _ Hsome) as Hlen.
  apply lookup_lt_is_Some in Hsome.
  destruct (status st) eqn:Est.
  - destruct Hinv as [Hrun _]. by rewrite Hrun in Hk.
  - destruct Hinv as [Hrun _]. by rewrite Hrun in Hk.
  - destruct Hinv as (Hs & Hd & Hall & Hu & Hok & Hfi).
    destruct Hf as (Hne & HdU & Herr & Hfail).
    assert (op = Install) as -> by eauto using lookup_op.
    destruct ok.
    + unfold pending. fields.
      rewrite filter_all_of by (by apply Forall_delete).
      destruct (delete k (running st)) as [|c rest] eqn:Edel.
      * apply facts_startUninstalling; fields; try done.
        -- by rewrite started_snoc, Nat.add_0_r.
        -- rewrite settled_snoc. simpl in *. lia.
        -- solve_never.
        -- solve_never.
        -- solve_never.
        -- solve_never.
      * split; fields; rewrite ?Est.
        split; [done |]. split; [| split]; solve_never.
    + split; fields. right.
      exists Install, x, (trace st), [].
      split; [done |]. split; [by rewrite <- app_assoc |].
      split; [done |]. split; [done |]. split; [constructor |].
      split; [constructor |]. split; [by apply Forall_delete |].
      split; solve_never.
  - destruct Hinv as (Hall & Hok & Hfi).
    destruct Hf as (Hne & HsI & HdI & HsU & HdU & Herr & Hfail).
    assert (op = Uninstall) as -> by eauto using lookup_op.
    destruct ok.
    + unfold pending. fields.
      rewrite filter_all_of by (by apply Forall_delete).
      destruct (delete k (running st)) as [|c rest] eqn:Edel.
      * split; fields.
        rewrite !started_snoc, !settled_snoc. simpl in *.
        split; [done |]. split; [lia |]. split; [lia |]. split; [lia |].
        split; [lia |]. split; [solve_never |]. split; [solve_never |].
        by rewrite last_snoc.
      * split; fields; rewrite ?Est.
        rewrite !started_snoc, !settled_snoc. simpl in *.
        split; [done |]. split; [lia |]. split; [lia |]. split; [lia |].
        split; [lia |]. split; solve_never.
    + split; fields. right.
      exists Uninstall, x, (trace st), [].
      split; [done |]. split; [by rewrite <- app_assoc |].
      split; [done |]. split; [done |]. split; [constructor |].
      split; [constructor |]. split; [by apply Forall_delete |].
      split; [done |]. split; [done |]. split; [done |]. solve_never.
  - destruct Hinv as [Hrun _]. by rewrite Hrun in Hk.
  - assert (chain_facts
              (mkState (extensionsToInstall st) (extensionsToUninstall st)
                 (delete k (running st)) (Failed e)
                 (trace st ++ [Settled op x ok]))) as Hgoal.
    { destruct Hf as [[Hrun _]|(op0 & x0 & pre & post & He & Htr & Hpre & Hepre
                               & Hepost & Hxpost & Hall & Hop)];
        [by rewrite Hrun in Hk |].
      assert (op = op0) as -> by eauto using lookup_op.
      split; fields. right. exists op0, x0, pre, (post ++ [Settled op0 x ok]).
      split; [done |].
      split; [rewrite Htr, <- app_assoc; by simpl |].
      split; [done |]. split; [done |]. split; [solve_never |].
      split; [solve_never |]. split; [by apply Forall_delete |].
      destruct op0.
      - destruct Hop as [H1 H2]. split; solve_never.
      - destruct Hop as (H1 & H2 & H3 & H4). repeat split; try done. solve_never. }
    by destruct op.
  - destruct Hf as [Hrun _]. by rewrite Hrun in Hk.
Qed.

Lemma chain_facts_launch env : chain_facts (launch env).
Proof.
  unfold launch, readInstalledExtensions.
  destruct (listExtensions env) as [stdout stderr|].
  - destruct (truthy stderr); [by split |].
    unfold computePlan. destruct (extensionsFile env) as [content|].
    + destruct (length (transformExtensionsStringToArray content) =? 0)%nat;
        [by split |].
      fields.
      destruct ((length (diff (transformExtensionsStringToArray content)
                              (transformExtensionsStringToArray stdout)) =? 0)%nat
                && (length (diff (transformExtensionsStringToArray stdout)
                                 (transformExtensionsStringToArray content)) =? 0)%nat);
        [by split |].
      fields. unfold onAnswer.
      destruct (negb (String.eqb (answer env) "y")); [by split |].
      apply facts_startInstalling; fields; [done | |];
        unfold initial; fields; solve_never.
    + split; fields. left. split; [done |]. unfold initial; fields. solve_never.
  - unfold computePlan. split; fields. left. split; [done |].
    unfold initial; fields. solve_never.
Qed.

Lemma chain_facts_installExtensions env sched :
  chain_facts (installExtensions env sched).
Proof.
  unfold installExtensions.
  generalize (chain_inv_launch env) (chain_facts_launch env).
  generalize (launch env) as st.
  induction sched as [|s sched IH]; intros st Hinv Hfacts; [done |].
  simpl. apply IH; [by apply chain_inv_settle | by apply chain_facts_settle].
Qed.

Lemma confirmed_run_starts_something env sched stdout content :
  listExtensions env = Resolved stdout "" →
  extensionsFile env = Some content →
  transformExtensionsStringToArray content ≠ [] →
  plan (transformExtensionsStringToArray stdout)
       (transformExtensionsStringToArray content) ≠ ([], []) →
  answer env = "y" →
  ∃ op x, Exec op x ∈ trace (installExtensions env sched).
Proof.
  intros Hlist Hfile Hsaved Hplan Hy.
  assert (∃ op x, Exec op x ∈ trace (launch env)) as (op & x & Hin).
  { rewrite (launch_confirmed env stdout content Hlist Hfile Hsaved Hplan Hy).
    unfold plan in Hplan. unfold startInstalling, startUninstalling. fields.
    destruct (diff (transformExtensionsStringToArray stdout)
                   (transformExtensionsStringToArray content)) as [|i l].
    - destruct (diff (transformExtensionsStringToArray content)
                     (transformExtensionsStringToArray stdout)) as [|u l']; [done |].
      exists Uninstall, u. fields. apply elem_of_app. right.
      apply spawn_elem_of. left.
    - exists Install, i. fields. apply elem_of_app. right.
      apply spawn_elem_of. left. }
  exists op, x. eapply elem_of_prefix; [exact Hin | apply run_prefix].
Qed.

(** X12. A confirmed run in which every started command has ended and none
    has failed is completed: the success message is the last event, one
    install was started and ended per entry of [extensionsToInstall], one
    uninstall per entry of [extensionsToUninstall], and nothing was logged
    as an error. *)
Theorem all_succeed_completes (env : Env) (sched : list settlement)
    (stdout content : string) :
  listExtensions env = Resolved stdout "" →
  extensionsFile env = Some content →
  transformExtensionsStringToArray content ≠ [] →
  plan (transformExtensionsStringToArray stdout)
       (transformExtensionsStringToArray content) ≠ ([], []) →
  answer env = "y" →
  let st := installExtensions env sched in
  running st = [] →
  (∀ op x, Settled op x false ∉ trace st) →
  status st = Completed
  ∧ last (trace st) = Some (ConsoleLog MsgSuccess)
  ∧ started Install (trace st) = length (extensionsToInstall st)
  ∧ settled Install (trace st) = length (extensionsToInstall st)
  ∧ started Uninstall (trace st) = length (extensionsToUninstall st)
  ∧ settled Uninstall (trace st) = length (extensionsToUninstall st)
  ∧ (∀ e, ConsoleError e ∉ trace st).
Proof.
  intros Hlist Hfile Hsaved Hplan Hy st Hrun Hnofail.
  destruct (confirmed_run_starts_something env sched stdout content
              Hlist Hfile Hsaved Hplan Hy) as (op & x & Hexec).
  fold st in Hexec.
  destruct (chain_inv_installExtensions env sched) as [_ Hinv].
  destruct (chain_facts_installExtensions env sched) as [Hf].
  fold st in Hinv, Hf.
  assert (never is_chain_event (trace st) → False) as Hquiet.
  { intros Hq. by apply (never_not_elem_of is_chain_event _ (Exec op x) Hq eq_refl). }
  destruct (status st) eqn:Est.
  - destruct Hinv as [_ Hq]. by destruct Hquiet.
  - destruct Hinv as [_ Hq]. by destruct Hquiet.
  - by destruct Hf as [Hne _].
  - by destruct Hf as [Hne _].
  - destruct Hinv as [_ Hq]. by destruct Hquiet.
  - destruct Hf as [[_ Hq]|(op0 & x0 & pre & post & _ & Htr & _)];
      [by destruct Hquiet |].
    exfalso. apply (Hnofail op0 x0). rewrite Htr. apply elem_of_app. right. left.
  - destruct Hf as (_ & H1 & H2 & H3 & H4 & Herr & _ & Hlast).
    repeat split; try done.
    intros e. by apply (never_not_elem_of is_error _ (ConsoleError e) Herr).
Qed.

Lemma all_succeed_completes_witness :
  status (installExtensions env_mixed [Settle 0 true; Settle 0 true]) = Completed.
Proof.
  apply (all_succeed_completes env_mixed [Settle 0 true; Settle 0 true]
           (lines ["a"; "b"]) (lines ["b"; "c"]));
    [reflexivity | reflexivity | discriminate | discriminate | reflexivity
    | reflexivity |].
  intros op x. vm_compute. absent.
Defined.

(** X13. When some command fails, the run ends in the final error handler
    with the first failure: the trace is the events before that failure
    (none of them a failure or a logged error), the failure, the call of
    [console.error] with it, and then only ends of commands already running.
    After the first failure no command is started and no further failure is
    logged. *)
Theorem only_first_failure_is_logged (env : Env) (sched : list settlement)
    (op : operation) (x : string) :
  let st := installExtensions env sched in
  Settled op x false ∈ trace st →
  ∃ op0 x0 pre post,
    trace st = pre ++ Settled op0 x0 false :: ConsoleError (ErrCommand op0 x0) :: post
    ∧ status st = Failed (ErrCommand op0 x0)
    ∧ (∀ op' x', Settled op' x' false ∉ pre)
    ∧ (∀ e, ConsoleError e ∉ pre)
    ∧ (∀ e, ConsoleError e ∉ post)
    ∧ (∀ op' x', Exec op' x' ∉ post).
Proof.
  intros st Hfail.
  destruct (chain_inv_installExtensions env sched) as [_ Hinv].
  destruct (chain_facts_installExtensions env sched) as [Hf].
  fold st in Hinv, Hf.
  assert (never is_chain_event (trace st) → False) as Hquiet.
  { intros Hq.
    by apply (never_not_elem_of is_chain_event _ (Settled op x false) Hq eq_refl). }
  assert (never is_failure (trace st) → False) as Hnone.
  { intros Hq.
    by apply (never_not_elem_of is_failure _ (Settled op x false) Hq eq_refl). }
  destruct (status st) eqn:Est.
  - destruct Hinv as [_ Hq]. by destruct Hquiet.
  - destruct Hinv as [_ Hq]. by destruct Hquiet.
  - destruct Hf as (_ & _ & _ & Hn). by destruct Hnone.
  - destruct Hf as (_ & _ & _ & _ & _ & _ & Hn). by destruct Hnone.
  - destruct Hinv as [_ Hq]. by destruct Hquiet.
  - destruct Hf as [[_ Hq]|(op0 & x0 & pre & post & -> & Htr & Hpre & Hepre
                            & Hepost & Hxpost & _)];
      [by destruct Hquiet |].
    exists op0, x0, pre, post. split; [done |]. split; [done |].
    split; [intros op' x'; by apply (never_not_elem_of is_failure _ _ Hpre) |].
    split; [intros e'; by apply (never_not_elem_of is_error _ _ Hepre) |].
    split; [intros e'; by apply (never_not_elem_of is_error _ _ Hepost) |].
    intros op' x'. by apply (never_not_elem_of is_any_exec _ _ Hxpost).
  - destruct Hf as (_ & _ & _ & _ & _ & _ & Hn & _). by destruct Hnone.
Qed.

Lemma only_first_failure_is_logged_witness :
  ∃ op0 x0 pre post,
    trace (installExtensions env_two_installs [Settle 0 false; Settle 0 false])
    = pre ++ Settled op0 x0 false :: ConsoleError (ErrCommand op0 x0) :: post
    ∧ status (installExtensions env_two_installs [Settle 0 false; Settle 0 false])
      = Failed (ErrCommand op0 x0)
    ∧ (∀ op' x', Settled op' x' false ∉ pre)
    ∧ (∀ e, ConsoleError e ∉ pre)
    ∧ (∀ e, ConsoleError e ∉ post)
    ∧ (∀ op' x', Exec op' x' ∉ post).
Proof.
  apply (only_first_failure_is_logged env_two_installs
           [Settle 0 false; Settle 0 false] Install "d").
  vm_compute. do 13 right. left.
Defined.

(** X14. An uninstall can fail only after every install has been started
    and has ended successfully and every uninstall has been started; the
    run then ends in the final error handler with that failure and the
    success message is not printed. *)
Theorem uninstall_failure_after_installs (env : Env) (sched : list settlement)
    (x : string) :
  let st := installExtensions env sched in
  Settled Uninstall x false ∈ trace st →
  ∃ x0 pre post,
    trace st = pre ++ Settled Uninstall x0 false
                   :: ConsoleError (ErrCommand Uninstall x0) :: post
    ∧ status st = Failed (ErrCommand Uninstall x0)
    ∧ started Install pre = length (extensionsToInstall st)
    ∧ settled Install pre = length (extensionsToInstall st)
    ∧ started Uninstall pre = length (extensionsToUninstall st)
    ∧ (∀ y, Settled Install y false ∉ trace st)
    ∧ (ConsoleLog MsgSuccess ∉ trace st).
Proof.
  intros st Hfail.
  destruct (chain_inv_installExtensions env sched) as [_ Hinv].
  destruct (chain_facts_installExtensions env sched) as [Hf].
  fold st in Hinv, Hf.
  assert (never is_chain_event (trace st) → False) as Hquiet.
  { intros Hq.
    by apply (never_not_elem_of is_chain_event _ (Settled Uninstall x false) Hq eq_refl). }
  assert (never is_failure (trace st) → False) as Hnone.
  { intros Hq.
    by apply (never_not_elem_of is_failure _ (Settled Uninstall x false) Hq eq_refl). }
  destruct (status st) eqn:Est.
  - destruct Hinv as [_ Hq]. by destruct Hquiet.
  - destruct Hinv as [_ Hq]. by destruct Hquiet.
  - destruct Hf as (_ & _ & _ & Hn). by destruct Hnone.
  - destruct Hf as (_ & _ & _ & _ & _ & _ & Hn). by destruct Hnone.
  - destruct Hinv as [_ Hq]. by destruct Hquiet.
  - destruct Hinv as (_ & Hok & _).
    destruct Hf as [[_ Hq]|(op0 & x0 & pre & post & -> & Htr & _ & _ & _ & _ & _ & Hop)];
      [by destruct Hquiet |].
    destruct op0.
    + destruct Hop as [_ Hn]. exfalso.
      by apply (never_not_elem_of (is_settled Uninstall) _
                  (Settled Uninstall x false) Hn eq_refl).
    + destruct Hop as (H1 & H2 & H3 & H4).
      exists x0, pre, post. repeat split; try done.
      * intros y. by apply (never_not_elem_of is_failed_install _ _ H4).
      * by apply (never_not_elem_of is_success _ _ Hok).
  - destruct Hf as (_ & _ & _ & _ & _ & _ & Hn & _). by destruct Hnone.
Qed.

Lemma uninstall_failure_after_installs_witness :
  ∃ x0 pre post,
    trace (installExtensions env_mixed [Settle 0 true; Settle 0 false])
    = pre ++ Settled Uninstall x0 false
          :: ConsoleError (ErrCommand Uninstall x0) :: post
    ∧ status (installExtensions env_mixed [Settle 0 true; Settle 0 false])
      = Failed (ErrCommand Uninstall x0)
    ∧ started Install pre = 1.
Proof.
  destruct (uninstall_failure_after_installs env_mixed
              [Settle 0 true; Settle 0 false] "a") as (x0 & pre & post & H).
  - vm_compute. do 12 right. left.
  - exists x0, pre, post. destruct H as (H1 & H2 & H3 & _). eauto.
Defined.

(** *** The order of the commands *)

Lemma spawn_filter op l :
  List.filter (is_exec op) (concat (map (runExtensionCommand op) l))
  = map (Exec op) l.
Proof. induction l as [|x l IH]; [done |]. destruct op; simpl; by rewrite IH. Qed.

Lemma spawn_filter_other l :
  List.filter (is_exec Uninstall) (concat (map (runExtensionCommand Install) l)) = []
  ∧ List.filter (is_exec Install) (concat (map (runExtensionCommand Uninstall) l)) = [].
Proof. split; apply never_count; by apply spawn_never. Qed.

(** What one ending adds to the trace. *)
Lemma settle_appends st s :
  ∃ evs,
    trace (settle st s) = trace st ++ evs
    ∧ List.filter (is_exec Install) evs = []
    ∧ (List.filter (is_exec Uninstall) evs = []
       ∨ (status st = Installing
          ∧ List.filter (is_exec Uninstall) evs
            = map (Exec Uninstall) (extensionsToUninstall st))).
Proof.
  destruct s as [k ok]. unfold settle.
  destruct (running st !! k) as [[op x]|]; [| exists []; by rewrite app_nil_r; auto].
  destruct (status st) eqn:Est, op, ok;
    try (eexists [_]; fields; split; [reflexivity |]; split; [done | by left]);
    try (eexists [_; _]; fields; split; [by rewrite <- app_assoc |];
         split; [done | by left]).
  - destruct (pending Install _).
    + unfold startUninstalling. fields.
      destruct (extensionsToUninstall st) as [|u U] eqn:EU; fields.
      * eexists [_; _]. rewrite ?EU. simpl concat.
        split; [by rewrite app_nil_r, <- app_assoc |]. split; [done | by left].
      * eexists (_ :: _). rewrite ?EU. split; [by rewrite <- app_assoc |].
        simpl List.filter at 1.
        destruct (spawn_filter_other U) as [_ H0].
        split; [exact H0 |]. right. split; [done |].
        simpl. by rewrite (spawn_filter Uninstall U).
    + eexists [_]. split; [reflexivity |]. split; [done | by left].
  - destruct (pending Uninstall _).
    + eexists [_; _]. fields. split; [by rewrite <- app_assoc |].
      split; [done | by left].
    + eexists [_]. split; [reflexivity |]. split; [done | by left].
Qed.

Lemma run_exec_order st sched :
  chain_inv st →
  List.filter (is_exec Install) (trace (foldl settle st sched))
  = List.filter (is_exec Install) (trace st)
  ∧ (List.filter (is_exec Uninstall) (trace (foldl settle st sched))
     = List.filter (is_exec Uninstall) (trace st)
     ∨ List.filter (is_exec Uninstall) (trace (foldl settle st sched))
       = map (Exec Uninstall) (extensionsToUninstall st)).
Proof.
  revert st. induction sched as [|s sched IH]; intros st Hinv; [by auto |].
  simpl. destruct (IH (settle st s) (chain_inv_settle st s Hinv)) as [HI HU].
  destruct (settle_appends st s) as (evs & Htr & H0 & Hcase).
  destruct (settle_plan st s) as [_ HUeq].
  rewrite HI, Htr, List.filter_app, H0, app_nil_r. split; [done |].
  rewrite HUeq in HU. destruct HU as [HU|HU]; [| by right].
  rewrite HU, Htr, List.filter_app.
  destruct Hcase as [->|[Est ->]]; [left; by rewrite app_nil_r |].
  right. destruct Hinv as [_ Hph]. rewrite Est in Hph.
  destruct Hph as (_ & _ & _ & Hu & _). by rewrite (never_count _ _ Hu).
Qed.

(** X23. In a confirmed run the installs are started once per entry of the
    plan and in its order, which is the order of the [extensions] file: an
    identifier that the file lists twice and the machine lacks has its
    install started twice. The uninstalls, once the chain reaches them, are
    started likewise in the order of the installed list. *)
Theorem commands_start_in_plan_order (env : Env) (sched : list settlement)
    (stdout content : string) :
  listExtensions env = Resolved stdout "" →
  extensionsFile env = Some content →
  transformExtensionsStringToArray content ≠ [] →
  plan (transformExtensionsStringToArray stdout)
       (transformExtensionsStringToArray content) ≠ ([], []) →
  answer env = "y" →
  let st := installExtensions env sched in
  List.filter (is_exec Install) (trace st)
  = map (Exec Install)
        (List.filter (fun y => negb (includes (transformExtensionsStringToArray stdout) y))
                     (transformExtensionsStringToArray content))
  ∧ (List.filter (is_exec Uninstall) (trace st) = []
     ∨ List.filter (is_exec Uninstall) (trace st)
       = map (Exec Uninstall)
           (List.filter (fun y => negb (includes (transformExtensionsStringToArray content) y))
                        (transformExtensionsStringToArray stdout))).
Proof.
  intros Hlist Hfile Hsaved Hplan Hy st.
  assert (∀ base values,
            List.filter (fun y => negb (includes base y)) values = diff base values)
    as Hdiff.
  { intros base values. unfold diff.
    assert (∀ acc,
              foldl (fun acc value =>
                       if includes base value then acc else acc ++ [value])
                    acc values
              = acc ++ List.filter (fun y => negb (includes base y)) values) as H.
    { induction values as [|v vs IH]; intros acc; simpl; [by rewrite app_nil_r |].
      rewrite IH. destruct (includes base v); simpl; [done |].
      by rewrite <- app_assoc. }
    by rewrite H. }
  rewrite !Hdiff.
  subst st. unfold installExtensions.
  destruct (run_exec_order (launch env) sched (chain_inv_launch env)) as [HI HU].
  rewrite HI. clear HI.
  assert (List.filter (is_exec Install) (trace (launch env))
          = map (Exec Install) (diff (transformExtensionsStringToArray stdout)
                                     (transformExtensionsStringToArray content))
          ∧ extensionsToUninstall (launch env)
            = diff (transformExtensionsStringToArray content)
                   (transformExtensionsStringToArray stdout)
          ∧ (List.filter (is_exec Uninstall) (trace (launch env)) = []
             ∨ List.filter (is_exec Uninstall) (trace (launch env))
               = map (Exec Uninstall)
                     (diff (transformExtensionsStringToArray content)
                           (transformExtensionsStringToArray stdout))))
    as (HI & HUeq & HU0).
  { rewrite (launch_confirmed env stdout content Hlist Hfile Hsaved Hplan Hy).
    unfold startInstalling, startUninstalling. fields.
    destruct (diff (transformExtensionsStringToArray stdout)
                   (transformExtensionsStringToArray content)) as [|i l] eqn:EI.
    - destruct (diff (transformExtensionsStringToArray content)
                     (transformExtensionsStringToArray stdout)) as [|u l'] eqn:EU;
        fields; rewrite ?EU.
      + split; [done |]. split; [done | by left].
      + rewrite !List.filter_app.
        destruct (spawn_filter_other (u :: l')) as [_ H0]. rewrite H0.
        split; [done |]. split; [done |]. right.
        by rewrite (spawn_filter Uninstall (u :: l')).
    - fields. rewrite !List.filter_app.
      destruct (spawn_filter_other (i :: l)) as [H0 _]. rewrite H0.
      split; [by rewrite (spawn_filter Install (i :: l)) |].
      split; [done | by left]. }
  split; [exact HI |].
  rewrite HUeq in HU. destruct HU as [HU|HU]; [| by right].
  by rewrite HU.
Qed.

Lemma commands_start_in_plan_order_witness :
  List.filter (is_exec Install)
    (trace (installExtensions
              (mkEnv (Resolved (lines ["a"]) "") (Some (lines ["b"; "a"; "b"])) "y")
              [Settle 1 true]))
  = [Exec Install "b"; Exec Install "b"].
Proof.
  destruct (commands_start_in_plan_order
              (mkEnv (Resolved (lines ["a"]) "") (Some (lines ["b"; "a"; "b"])) "y")
              [Settle 1 true] (lines ["a"]) (lines ["b"; "a"; "b"])
              eq_refl eq_refl ltac:(discriminate) ltac:(discriminate) eq_refl)
    as [H _].
  exact H.
Defined.

End CommandMore.

(** ** The copy commands, [saveExtensions], the chains and the dispatch *)

Section MachineFacts.

Import Machine.

Implicit Types (h : Host) (w : world).

(** The chain of a copy command: [copyFile(src, dest).then(() =>
    console.log(Success)).catch(console.error)] after the opening message. *)
Lemma copy_chain h (n : note) (src dest : string) w :
  catchLog (andThen (copyFile h src dest) (fun _ => log Success))
           (emitW [Say n] w)
  = match files w !! resolve h src with
    | Some content =>
        if writable h (resolve h dest)
        then (mkWorld (<[resolve h dest := content]> (files w))
                      (output w ++ [Say n; CopyFile src dest; Say Success]),
              Fulfilled tt)
        else (mkWorld (files w)
                      (output w ++ [Say n; CopyFile src dest;
                                    Complain (CopyFailed src dest)]),
              Fulfilled tt)
    | None =>
        (mkWorld (files w)
                 (output w ++ [Say n; CopyFile src dest;
                               Complain (CopyFailed src dest)]),
         Fulfilled tt)
    end.
Proof.
  unfold catchLog, andThen, copyFile, log, emitW. simpl.
  destruct (files w !! resolve h src) as [content|]; simpl.
  - destruct (writable h (resolve h dest)); simpl; by rewrite <- !app_assoc.
  - by rewrite <- !app_assoc.
Qed.

Lemma copy_chain_fulfils h n src dest w :
  (catchLog (andThen (copyFile h src dest) (fun _ => log Success))
            (emitW [Say n] w)).2 = Fulfilled tt
  ∧ ∀ p, p ≠ resolve h dest →
      files (catchLog (andThen (copyFile h src dest) (fun _ => log Success))
                      (emitW [Say n] w)).1 !! p
      = files w !! p.
Proof.
  rewrite copy_chain.
  destruct (files w !! resolve h src) as [content|]; [| done].
  destruct (writable h (resolve h dest)); [| done].
  split; [done |]. intros p Hp. simpl. by rewrite lookup_insert_ne.
Qed.

Lemma saveSettings_fulfils h w :
  (saveSettings h w).2 = Fulfilled tt
  ∧ ∀ p, p ≠ resolve h "./settings.json" →
      files (saveSettings h w).1 !! p = files w !! p.
Proof. apply copy_chain_fulfils. Qed.

Lemma saveKeyBindings_fulfils h w :
  (saveKeyBindings h w).2 = Fulfilled tt
  ∧ ∀ p, p ≠ resolve h "./keybindings.json" →
      files (saveKeyBindings h w).1 !! p = files w !! p.
Proof. apply copy_chain_fulfils. Qed.

Lemma applySettings_fulfils h w :
  (applySettings h w).2 = Fulfilled tt
  ∧ ∀ p, p ≠ resolve h (pathJoin h [getPathToConfig h; "settings.json"]) →
      files (applySettings h w).1 !! p = files w !! p.
Proof. apply copy_chain_fulfils. Qed.

Lemma applyKeyBindings_fulfils h w :
  (applyKeyBindings h w).2 = Fulfilled tt
  ∧ ∀ p, p ≠ resolve h (pathJoin h [getPathToConfig h; "keybindings.json"]) →
      files (applyKeyBindings h w).1 !! p = files w !! p.
Proof. apply copy_chain_fulfils. Qed.

(** X15. Each of the four copy commands fulfils its promise whether or not
    the copy succeeds, and changes no file other than its destination: the
    save commands leave the editor's files alone, the apply commands leave
    the snapshot alone. *)
Theorem copy_commands_always_fulfil h w :
  ((saveSettings h w).2 = Fulfilled tt
   ∧ ∀ p, p ≠ resolve h "./settings.json" →
       files (saveSettings h w).1 !! p = files w !! p)
  ∧ ((saveKeyBindings h w).2 = Fulfilled tt
     ∧ ∀ p, p ≠ resolve h "./keybindings.json" →
         files (saveKeyBindings h w).1 !! p = files w !! p)
  ∧ ((applySettings h w).2 = Fulfilled tt
     ∧ ∀ p, p ≠ resolve h (pathJoin h [getPathToConfig h; "settings.json"]) →
         files (applySettings h w).1 !! p = files w !! p)
  ∧ ((applyKeyBindings h w).2 = Fulfilled tt
     ∧ ∀ p, p ≠ resolve h (pathJoin h [getPathToConfig h; "keybindings.json"]) →
         files (applyKeyBindings h w).1 !! p = files w !! p).
Proof. repeat split; try apply copy_chain_fulfils. Qed.

(** X16. A copy command whose source file does not exist, or whose
    destination cannot be written, logs the rejection, prints no success
    message and leaves every file as it was. *)
Theorem failed_copy_changes_nothing h w :
  (files w !! resolve h "./settings.json" = None
   ∨ writable h (resolve h (pathJoin h [getPathToConfig h; "settings.json"])) = false) →
  files (applySettings h w).1 = files w
  ∧ output (applySettings h w).1
    = output w ++ [Say ApplyingSettings;
                   CopyFile "./settings.json"
                            (pathJoin h [getPathToConfig h; "settings.json"]);
                   Complain (CopyFailed "./settings.json"
                               (pathJoin h [getPathToConfig h; "settings.json"]))].
Proof.
  intros Hcase. unfold applySettings. rewrite copy_chain.
  destruct (files w !! resolve h "./settings.json") as [content|] eqn:Esrc; [| done].
  destruct Hcase as [|Hw]; [done |]. by rewrite Hw.
Qed.

Lemma failed_copy_changes_nothing_witness :
  files (applySettings host_linux world_live).1 = files world_live.
Proof.
  apply (failed_copy_changes_nothing host_linux world_live).
  left. reflexivity.
Defined.

(** X17. [applyAll] runs [installExtensions] whatever became of the two
    copies before it, and, when the [extensions] file is neither of the two
    files they write, on the same [extensions] file as at the start. *)
Theorem applyAll_always_installs h w :
  let w2 := (applyKeyBindings h (applySettings h w).1).1 in
  applyAll h w = installExtensions h w2
  ∧ (resolve h "./extensions"
       ≠ resolve h (pathJoin h [getPathToConfig h; "settings.json"]) →
     resolve h "./extensions"
       ≠ resolve h (pathJoin h [getPathToConfig h; "keybindings.json"]) →
     hostEnv h w2 = hostEnv h w).
Proof.
  intros w2. subst w2.
  destruct (applySettings_fulfils h w) as [Hs Hsf].
  destruct (applyKeyBindings_fulfils h (applySettings h w).1) as [Hk Hkf].
  split.
  - unfold applyAll, andThen.
    destruct (applySettings h w) as [w1 r1]. simpl in *. subst r1.
    destruct (applyKeyBindings h w1) as [w2 r2]. simpl in *. by subst r2.
  - intros H1 H2. unfold hostEnv. f_equal. by rewrite Hkf, Hsf.
Qed.

(** X18. [saveAll] runs [saveExtensions] whatever became of the two copies
    before it; it ends by [process.exit(1)] exactly when the list command
    resolved with output on its error stream. *)
Theorem saveAll_always_saves_extensions h w :
  let w2 := (saveKeyBindings h (saveSettings h w).1).1 in
  saveAll h w = saveExtensions h w2
  ∧ ((saveAll h w).2 = Halted 1
     ↔ ∃ stdout stderr, listing h = Resolved stdout stderr ∧ stderr ≠ "")
  ∧ (∀ f, (saveAll h w).2 ≠ Rejected f).
Proof.
  intros w2. subst w2.
  destruct (saveSettings_fulfils h w) as [Hs _].
  destruct (saveKeyBindings_fulfils h (saveSettings h w).1) as [Hk _].
  assert (saveAll h w
          = saveExtensions h (saveKeyBindings h (saveSettings h w).1).1) as Heq.
  { unfold saveAll, andThen.
    destruct (saveSettings h w) as [w1 r1]. simpl in *. subst r1.
    destruct (saveKeyBindings h w1) as [w2 r2]. simpl in *. by subst r2. }
  split; [exact Heq |]. rewrite Heq.
  generalize ((saveKeyBindings h (saveSettings h w).1).1) as w2. intros w2.
  unfold saveExtensions, catchLog, andThen, readInstalled, readInstalledExtensions,
    writeFile, log, hostEnv. simpl.
  destruct (listing h) as [stdout stderr|]; simpl.
  - destruct stderr as [|c stderr]; simpl.
    + split.
      * split; [| by intros (? & ? & [= <- <-] & ?)].
        destruct (writable h (resolve h "extensions")); simpl; discriminate.
      * intros f. destruct (writable h (resolve h "extensions")); simpl; discriminate.
    + split; [| discriminate]. split; [| done].
      intros _. eexists _, _. split; [done | discriminate].
  - split.
    + split; [| by intros (? & ? & [=] & ?)].
      destruct (undefinedData h); simpl; [| discriminate].
      destruct (writable h (resolve h "extensions")); simpl; discriminate.
    + intros f. destruct (undefinedData h); simpl; [| discriminate].
      destruct (writable h (resolve h "extensions")); simpl; discriminate.
Qed.

(** X19. Settings that were saved come back when applied, whatever was done
    to the editor's settings file in between: if [saveSettings] found the
    file with content [c] and could write the snapshot, then [applySettings],
    run in any world that still has that snapshot and where the editor's file
    can be written, leaves the editor's file with content [c]. *)
Theorem saved_settings_are_restored h w w' (c : string) :
  files w !! resolve h (pathJoin h [getPathToConfig h; "settings.json"]) = Some c →
  writable h (resolve h "./settings.json") = true →
  writable h (resolve h (pathJoin h [getPathToConfig h; "settings.json"])) = true →
  files w' !! resolve h "./settings.json"
    = files (saveSettings h w).1 !! resolve h "./settings.json" →
  files (saveSettings h w).1 !! resolve h "./settings.json" = Some c
  ∧ files (applySettings h w').1
      !! resolve h (pathJoin h [getPathToConfig h; "settings.json"]) = Some c
  ∧ output (applySettings h w').1
    = output w' ++ [Say ApplyingSettings;
                    CopyFile "./settings.json"
                             (pathJoin h [getPathToConfig h; "settings.json"]);
                    Say Success].
Proof.
  intros Hlive Hsnap Hwlive Hkept.
  assert (files (saveSettings h w).1 !! resolve h "./settings.json" = Some c) as Hsaved.
  { unfold saveSettings. rewrite copy_chain, Hlive, Hsnap. simpl.
    by rewrite lookup_insert_eq. }
  split; [exact Hsaved |].
  rewrite Hsaved in Hkept. unfold applySettings.
  rewrite copy_chain, Hkept, Hwlive. simpl.
  by rewrite lookup_insert_eq.
Qed.

Lemma saved_settings_are_restored_witness :
  files (applySettings host_linux (saveSettings host_linux world_live).1).1
    !! "/home/u/.config/Code/User/settings.json" = Some "{}".
Proof.
  apply (saved_settings_are_restored host_linux world_live
           (saveSettings host_linux world_live).1 "{}");
    reflexivity.
Defined.

(** X20. What [saveExtensions] saved needs no change: when the list command
    succeeds and the file can be written, the [extensions] file holds its
    output as it is, and [installExtensions] run on that file and the same
    list finds nothing to install or uninstall and exits with code 0 without
    prompting; unless no extension is installed, in which case it reports
    the file just written as empty and exits with code 1. *)
Theorem saved_extensions_need_no_change h w (stdout : string)
    (sched : list settlement) :
  listing h = Resolved stdout "" →
  writable h (resolve h "extensions") = true →
  resolve h "extensions" = resolve h "./extensions" →
  let w1 := (saveExtensions h w).1 in
  (saveExtensions h w).2 = Fulfilled tt
  ∧ files w1 !! resolve h "extensions" = Some stdout
  ∧ (transformExtensionsStringToArray stdout ≠ [] →
     Flow.installExtensions (hostEnv h w1) sched
     = mkState [] [] [] (Exited 0)
         [ConsoleLog MsgInstallingExtensions; ConsoleLog MsgRule; CreateInterface;
          ExecList; ReadExtensionsFile; ConsoleLog MsgNothing; ProcessExit 0])
  ∧ (transformExtensionsStringToArray stdout = [] →
     Flow.installExtensions (hostEnv h w1) sched
     = mkState [] [] [] (Exited 1)
         [ConsoleLog MsgInstallingExtensions; ConsoleLog MsgRule; CreateInterface;
          ExecList; ReadExtensionsFile; ConsoleLog MsgFileEmpty; ProcessExit 1]).
Proof.
  intros Hlist Hw Hsame w1.
  assert (saveExtensions h w
          = (mkWorld (<[resolve h "extensions" := stdout]> (files w))
                     (output w ++ [Say SavingExtensions; Core ExecList;
                                   WriteFile "extensions" (Some stdout);
                                   Say Success]),
             Fulfilled tt)) as Hsave.
  { unfold saveExtensions, catchLog, andThen, readInstalled,
      readInstalledExtensions, writeFile, log, hostEnv, emitW. simpl.
    rewrite Hlist. simpl. rewrite Hw. simpl. by rewrite <- !app_assoc. }
  subst w1. rewrite Hsave. simpl.
  split; [done |]. split; [by rewrite lookup_insert_eq |].
  set (env1 := hostEnv h
                 (mkWorld (<[resolve h "extensions" := stdout]> (files w))
                    (output w ++ [Say SavingExtensions; Core ExecList;
                                  WriteFile "extensions" (Some stdout);
                                  Say Success]))).
  assert (listExtensions env1 = Resolved stdout "") as Hlist1 by exact Hlist.
  assert (extensionsFile env1 = Some stdout) as Hfile.
  { subst env1. unfold hostEnv. simpl. by rewrite <- Hsame, lookup_insert_eq. }
  split.
  - intros Hne. unfold Flow.installExtensions.
    rewrite (launch_nothing_to_do env1 stdout stdout Hlist1 Hfile Hne);
      [by apply run_idle |].
    unfold plan. f_equal; by apply diff_nil_iff.
  - intros Hempty. unfold Flow.installExtensions.
    rewrite (launch_empty_file env1 stdout stdout Hlist1 Hfile Hempty).
    by apply run_idle.
Qed.

Lemma saved_extensions_need_no_change_witness :
  status (Flow.installExtensions
            (hostEnv host_linux (saveExtensions host_linux world_live).1)
            [Settle 0 true])
  = Exited 0.
Proof.
  destruct (saved_extensions_need_no_change host_linux world_live
              (lines ["a"; "b"]) [Settle 0 true] eq_refl eq_refl eq_refl)
    as (_ & _ & Hrun & _).
  by rewrite Hrun.
Defined.

(** X21. [saveExtensions] when the list command does not give a list. With
    output on the error stream the process exits with code 1 and nothing is
    written. When the command fails, [writeFile] is called with [undefined]:
    a runtime that refuses such data leaves the file as it was and the error
    is logged; a runtime that stores a text for it overwrites the file with
    that text and the success message is printed. *)
Theorem saveExtensions_without_list h w :
  (∀ stdout stderr, listing h = Resolved stdout stderr → stderr ≠ "" →
     saveExtensions h w
     = (mkWorld (files w)
                (output w ++ [Say SavingExtensions; Core ExecList;
                              Core (ConsoleLog (MsgUnableToGet stderr));
                              Core (ProcessExit 1)]),
        Halted 1))
  ∧ (listing h = Flow.Rejected → undefinedData h = None →
     saveExtensions h w
     = (mkWorld (files w)
                (output w ++ [Say SavingExtensions; Core ExecList;
                              Core (ConsoleError ErrListCommand);
                              WriteFile "extensions" None;
                              Complain (InvalidData "extensions")]),
        Fulfilled tt))
  ∧ (∀ text, listing h = Flow.Rejected → undefinedData h = Some text →
     writable h (resolve h "extensions") = true →
     saveExtensions h w
     = (mkWorld (<[resolve h "extensions" := text]> (files w))
                (output w ++ [Say SavingExtensions; Core ExecList;
                              Core (ConsoleError ErrListCommand);
                              WriteFile "extensions" None;
                              Say Success]),
        Fulfilled tt)).
Proof.
  unfold saveExtensions, catchLog, andThen, readInstalled,
    readInstalledExtensions, writeFile, log, hostEnv, emitW. simpl.
  split; [| split].
  - intros stdout stderr -> Hne. destruct stderr; [done |]. simpl.
    by rewrite <- !app_assoc.
  - intros -> ->. simpl. by rewrite <- !app_assoc.
  - intros text -> -> Hw. simpl. rewrite Hw. simpl. by rewrite <- !app_assoc.
Qed.

(** X22. The dispatch. A command name that is none of the six commands
    prints the notice and exits with code 0 without touching a file, provided
    the name is not one that every object inherits; this includes a missing
    argument, the name [__unknown__] itself, and the names of the two
    key-bindings commands, which can be run only through [save-all] and
    [apply-all]. *)
Theorem unknown_command_exits_0 h (command : option string) w :
  propertyKey command ∉ ["apply-all"; "save-all"; "save-settings";
                          "apply-settings"; "save-extensions";
                          "install-extensions"] →
  inheritedKey h (propertyKey command) = false →
  ∃ run, main h command = Some run
         ∧ run w = (mkWorld (files w)
                            (output w ++ [Say UnknownCommand; Core (ProcessExit 0)]),
                    Halted 0).
Proof.
  intros Hnot Hinh. unfold main.
  assert (ownProperty commands (propertyKey command) = None
          ∨ ownProperty commands (propertyKey command) = Some Unknown) as [-> | ->].
  { unfold commands. cbn [ownProperty].
    repeat match goal with
    | |- context [String.eqb ?k ?n] =>
        destruct (String.eqb_spec k n) as [Heq|_];
        [exfalso; apply Hnot; rewrite <- Heq; set_unfold; tauto |]
    end.
    destruct (String.eqb "__unknown__" (propertyKey command)); auto. }
  - rewrite Hinh. by eexists.
  - by eexists.
Qed.

Lemma unknown_command_exits_0_witness :
  ∃ run, main host_linux (Some "save-key-bindings") = Some run
         ∧ run world_live
           = (mkWorld (files world_live)
                      (output world_live
                       ++ [Say UnknownCommand; Core (ProcessExit 0)]),
              Halted 0).
Proof.
  apply (unknown_command_exits_0 host_linux (Some "save-key-bindings") world_live);
    [| reflexivity].
  simpl. intros Hin.
  repeat (apply elem_of_cons in Hin as [Hin|Hin]; [discriminate Hin |]).
  by apply elem_of_nil in Hin.
Defined.

End MachineFacts.
